(** * dist/tools/usb-serial/ttys.py: list and filter USB serial TTYs

    A shallow embedding of the script and the properties of its
    filter-and-format pipeline.

    Conventions of the embedding.
    - A Python [str] is a [string]; [None] and the [float] of [st_ctime]
      are the other two shapes a record field takes, see [value].  A
      timestamp is the exact rational a finite float stands for ([Qc]).
    - A TTY record is the [dict] that [tty2dict] builds: a finite map from
      field names to values.  The dicts live in a store ([heap]) and the
      lists that the script passes around hold references, because table
      rendering assigns to a field of the dicts it is given.
    - Exceptions are values of [exn]; code that can raise, print or touch
      the store runs in the monad [M].
    - What the script asks of the operating system and of Python's
      library (udev, [os.stat], the clock, codecs, [int], [json], the
      regex engine on arbitrary patterns) is a [platform]; what the
      properties below depend on (the literal fragment of [re], [str.rfind],
      [str.split], [sys.exit]) is written out. *)

From Stdlib Require Import Ascii String QArith Qcanon Qround.
From stdpp Require Import base option list gmap strings pretty numbers.
From stdpp Require Import sorting.

Local Open Scope string_scope.
Local Open Scope Z_scope.

(** ** Values, exceptions, the store *)

Inductive value : Type :=
| VNone
| VStr (s : string)
| VNum (t : Qc).

Definition of_get (o : option string) : value :=
  match o with
  | Some s => VStr s
  | None => VNone
  end.

Inductive exit_arg : Type :=
| ExitCode (n : Z)
| ExitMessage (msg : string).

Inductive exn : Type :=
| TypeError
| ValueError
| KeyError
| AttributeError
| OSError
| UnicodeError
| ReError
| IndexError
| BadRef
| SystemExit (a : exit_arg).

Inductive result (A : Type) : Type :=
| Ok (a : A)
| Raise (e : exn).
Arguments Ok {A} a.
Arguments Raise {A} e.

#[global] Instance result_ret : MRet result := fun A a => Ok a.
#[global] Instance result_bind : MBind result := fun A B f r =>
  match r with
  | Ok a => f a
  | Raise e => Raise e
  end.

(** What reaches standard error: the text of [sys.exit(str)], or the
    traceback of an uncaught exception. *)
Inductive err_item : Type :=
| ErrMessage (msg : string)
| ErrTraceback (e : exn).

Abbreviation dict := (gmap string value).
Abbreviation ref := nat.

Record world : Type := World {
  heap : list dict;
  out : string;
  err : list err_item;
  queries : nat
}.

Definition world0 : world :=
  {| heap := []; out := ""; err := []; queries := 0 |}.

Definition M (A : Type) : Type := world -> result A * world.

#[global] Instance M_ret : MRet M := fun A a w => (Ok a, w).
#[global] Instance M_bind : MBind M := fun A B f m w =>
  match m w with
  | (Ok a, w') => f a w'
  | (Raise e, w') => (Raise e, w')
  end.

Definition raise {A} (e : exn) : M A := fun w => (Raise e, w).

Definition lift {A} (r : result A) : M A := fun w => (r, w).

Definition alloc (d : dict) : M ref := fun w =>
  (Ok (length (heap w)),
   {| heap := heap w ++ [d]; out := out w; err := err w;
      queries := queries w |}).

Definition deref (r : ref) : M dict := fun w =>
  match heap w !! r with
  | Some d => (Ok d, w)
  | None => (Raise BadRef, w)
  end.

(** [d[key]] *)
Definition item (d : dict) (key : string) : result value :=
  match d !! key with
  | Some v => Ok v
  | None => Raise KeyError
  end.

(** [tty[key]] on a reference *)
Definition getitem (r : ref) (key : string) : M value :=
  d ← deref r; lift (item d key).

(** [tty[key] = v] on a reference *)
Definition setitem (r : ref) (key : string) (v : value) : M unit := fun w =>
  match heap w !! r with
  | Some d =>
      (Ok tt,
       {| heap := <[r := <[key := v]> d]> (heap w); out := out w;
          err := err w; queries := queries w |})
  | None => (Raise BadRef, w)
  end.

(** [sys.stdout.write(s)] *)
Definition write (s : string) : M unit := fun w =>
  (Ok tt,
   {| heap := heap w; out := out w ++ s; err := err w;
      queries := queries w |}).

Definition newline : string := String (ascii_of_nat 10) "".

(** [print(s)] *)
Definition print (s : string) : M unit := write (s ++ newline).

(** ** The platform *)

(** A udev device: [dev.get(key)] is the lookup. *)
Abbreviation device := (gmap string string).

Record platform : Type := Platform {
  (** [pyudev.Context().list_devices(subsystem='tty', ID_BUS='usb')] *)
  list_devices : list device;
  (** [os.stat(path).st_ctime], [None] when the call raises *)
  stat_ctime : string -> option Qc;
  (** [os.environ] *)
  environ : gmap string string;
  (** [time.time()], which [time.localtime(None)] reads *)
  clock : Qc;
  (** [time.strftime("%H:%M:%S", time.localtime(t))] *)
  strftime_hms : Qc -> string;
  (** lines 20-21 on a [str]: the two codec round trips *)
  decode_escapes : string -> result string;
  (** [int(s)] on a [str], [None] when it raises [ValueError] *)
  int_of_str : string -> option Z;
  (** [str(x)] on a [float] *)
  str_of_float : Qc -> string;
  (** [json.dumps(s)] on a [str] *)
  json_dumps_str : string -> string;
  (** [json.dumps(ttys, indent=2)] on a list of records *)
  json_dumps_list : list dict -> string;
  (** [re.compile(p).match] for a pattern outside the literal fragment,
      [None] when [re.compile] raises *)
  re_engine : string -> option (string -> bool)
}.

(** ** unescape and tty2dict *)

Section Extract.
Context (P : platform).

(** [unescape(string)].  [bytes(None, "utf8")] raises [TypeError]. *)
Definition unescape (str : option string) : result string :=
  match str with
  | None => Raise TypeError
  | Some s => decode_escapes P s
  end.

(** [os.stat(path).st_ctime]; [os.stat(None)] raises [TypeError]. *)
Definition os_stat_ctime (path : option string) : result Qc :=
  match path with
  | None => Raise TypeError
  | Some p =>
      match stat_ctime P p with
      | Some t => Ok t
      | None => Raise OSError
      end
  end.

(** [int(x)]; [int(None)] raises [TypeError]. *)
Definition py_int (x : option string) : result Z :=
  match x with
  | None => Raise TypeError
  | Some s =>
      match int_of_str P s with
      | Some n => Ok n
      | None => Raise ValueError
      end
  end.

(** [str(n)] on an [int] *)
Definition str_of_int (n : Z) : string := pretty n.

Definition tty2dict (dev : device) : M ref :=
  let path := dev !! "DEVNAME" in
  ctime ← lift (os_stat_ctime path);
  let serial := dev !! "ID_SERIAL_SHORT" in
  let driver := dev !! "ID_USB_DRIVER" in
  model ← lift (unescape (dev !! "ID_MODEL_ENC"));
  let model_db := dev !! "ID_MODEL_FROM_DATABASE" in
  vendor ← lift (unescape (dev !! "ID_VENDOR_ENC"));
  let vendor_db := dev !! "ID_VENDOR_FROM_DATABASE" in
  iface ← lift (py_int (dev !! "ID_USB_INTERFACE_NUM"));
  alloc (<["iface_num" := VStr (str_of_int iface)]>
        (<["vendor_db" := of_get vendor_db]>
        (<["vendor" := VStr vendor]>
        (<["model_db" := of_get model_db]>
        (<["model" := VStr model]>
        (<["driver" := of_get driver]>
        (<["serial" := of_get serial]>
        (<["ctime" := VNum ctime]>
        (<["path" := of_get path]> ∅))))))))).

End Extract.

(** ** Regular expressions

    [re.compile] and [Pattern.match], without flags.  A pattern made of
    [^], [$], ordinary characters and backslash-escaped characters that
    are neither letters nor digits is a sequence of [atom]s and is
    matched here; any other pattern is handed to the platform's engine. *)

Inductive atom : Type :=
| Bol
| Eol
| Lit (c : ascii).

Inductive regex : Type :=
| Atoms (l : list atom)
| Engine (run : string -> bool).

Definition char_in (c : ascii) (set : string) : bool :=
  bool_decide (c ∈ list_ascii_of_string set).

Definition backslash : ascii := ascii_of_nat 92.

(** The characters [re] gives a meaning to: dot, backslash, the opening
    brackets and braces, parentheses, the repeat signs, the anchors and
    the bar. *)
Definition meta_chars : string := String backslash ".[{()*+?^$|".

Definition is_alnum (c : ascii) : bool :=
  let n := nat_of_ascii c in
  ((48 <=? n) && (n <=? 57) || (65 <=? n) && (n <=? 90)
   || (97 <=? n) && (n <=? 122))%nat.

Fixpoint parse_atoms (p : string) : option (list atom) :=
  match p with
  | "" => Some []
  | String c p' =>
      if Ascii.eqb c backslash then
        match p' with
        | "" => None
        | String e p'' =>
            if is_alnum e then None
            else cons (Lit e) <$> parse_atoms p''
        end
      else if Ascii.eqb c "^" then cons Bol <$> parse_atoms p'
      else if Ascii.eqb c "$" then cons Eol <$> parse_atoms p'
      else if char_in c meta_chars then None
      else cons (Lit c) <$> parse_atoms p'
  end.

(** [at_start]: nothing of the subject has been consumed yet.  [$] holds
    at the end of the subject and just before a newline that ends it. *)
Fixpoint match_atoms (l : list atom) (at_start : bool) (s : string) : bool :=
  match l with
  | [] => true
  | Bol :: l' => at_start && match_atoms l' at_start s
  | Eol :: l' =>
      (String.eqb s "" || String.eqb s newline) && match_atoms l' at_start s
  | Lit c :: l' =>
      match s with
      | "" => false
      | String c' s' => Ascii.eqb c c' && match_atoms l' false s'
      end
  end.

(** [regex.match(s)] is not [None] *)
Definition re_match (r : regex) (s : string) : bool :=
  match r with
  | Atoms l => match_atoms l true s
  | Engine run => run s
  end.

(** The characters [re.escape] puts a backslash before (Python 3.7 and
    later): the punctuation below, the space, and tab, newline, carriage
    return, vertical tab, form feed. *)
Definition escape_chars : string :=
  String backslash "()[]{}?*+-|^$.&~# "
  ++ String (ascii_of_nat 9) (String (ascii_of_nat 10)
       (String (ascii_of_nat 13) (String (ascii_of_nat 11)
       (String (ascii_of_nat 12) "")))).

Fixpoint re_escape (s : string) : string :=
  match s with
  | "" => ""
  | String c s' =>
      if char_in c escape_chars
      then String backslash (String c (re_escape s'))
      else String c (re_escape s')
  end.

(** The namespace that [argparse] hands to the rest of [parse_args].
    [exclude_serial] is [None] when the flag is absent and a list,
    possibly empty, when it is given. *)
Record args : Type := Args {
  most_recent : bool;
  format : list string;
  format_sep : string;
  serial : option string;
  driver : option string;
  model : option string;
  model_db : option string;
  vendor : option string;
  vendor_db : option string;
  iface_num : option string;
  exclude_serial : option (list string)
}.

Section Filters.
Context (P : platform).

Definition re_compile (p : string) : result regex :=
  match parse_atoms p with
  | Some l => Ok (Atoms l)
  | None =>
      match re_engine P p with
      | Some run => Ok (Engine run)
      | None => Raise ReError
      end
  end.

Abbreviation filters := (list (string * regex)).

(** [if opt is not None: result.append((key, re.compile(pattern)))] *)
Definition append_filter (key : string) (opt : option string)
    (pattern : string -> string) (acc : filters) : result filters :=
  match opt with
  | None => Ok acc
  | Some v =>
      r ← re_compile (pattern v);
      Ok (acc ++ [(key, r)])%list
  end.

Definition generate_filters (a : args) : result filters :=
  result ← append_filter "serial" (serial a)
             (fun s => "^" ++ re_escape s ++ "$") [];
  result ← append_filter "driver" (driver a) id result;
  result ← append_filter "model" (model a) id result;
  result ← append_filter "model_db" (model_db a) id result;
  result ← append_filter "vendor" (vendor a) id result;
  result ← append_filter "vendor_db" (vendor_db a) id result;
  append_filter "iface_num" (iface_num a) id result.

End Filters.

(** [filters_match(filters, tty)].  [regex.match] raises [TypeError] on a
    value that is not a string. *)
Fixpoint filters_match (fs : list (string * regex)) (tty : dict)
    : result bool :=
  match fs with
  | [] => Ok true
  | (key, regex) :: fs' =>
      match item tty key with
      | Raise e => Raise e
      | Ok VNone => Ok false
      | Ok (VNum _) => Raise TypeError
      | Ok (VStr s) =>
          if re_match regex s then filters_match fs' tty else Ok false
      end
  end.

(** ** parse_args, after argparse *)

Definition formats_combinable : gset string :=
  list_to_set ["path"; "serial"; "vendor"; "vendor_db"; "model"; "model_db";
               "driver"; "ctime"; "iface_num"].

Definition formats_uncombinable : gset string :=
  list_to_set ["table"; "json"].

Definition supported_formats : gset string :=
  formats_combinable ∪ formats_uncombinable.

Definition dquote : string := String (ascii_of_nat 34) "".

Definition not_supported (fmt : string) : exn :=
  SystemExit (ExitMessage
    ("Format " ++ dquote ++ fmt ++ dquote ++ " not supported")).

Definition not_combinable (fmt : string) : exn :=
  SystemExit (ExitMessage
    ("Format " ++ dquote ++ fmt ++ dquote
     ++ " cannot be combined with other formats")).

(** lines 120-126 *)
Fixpoint check_combinable (fmts : list string) : result unit :=
  match fmts with
  | [] => Ok tt
  | fmt :: fmts' =>
      if bool_decide (fmt ∈ formats_combinable) then check_combinable fmts'
      else if bool_decide (fmt ∈ formats_uncombinable)
      then Raise (not_combinable fmt)
      else Raise (not_supported fmt)
  end.

(** lines 116-126 *)
Definition check_formats (fmts : list string) : result unit :=
  match fmts with
  | [fmt] =>
      if bool_decide (fmt ∈ supported_formats) then Ok tt
      else Raise (not_supported fmt)
  | _ => check_combinable fmts
  end.

(** [str.split()], on the whitespace of ASCII *)
Definition is_space (c : ascii) : bool :=
  let n := nat_of_ascii c in
  ((n =? 32) || (9 <=? n) && (n <=? 13) || (28 <=? n) && (n <=? 31))%nat.

Fixpoint split_from (word : string) (s : string) : list string :=
  match s with
  | "" => if String.eqb word "" then [] else [word]
  | String c s' =>
      if is_space c then
        if String.eqb word "" then split_from "" s'
        else word :: split_from "" s'
      else split_from (word ++ String c "") s'
  end.

Definition split (s : string) : list string := split_from "" s.

Definition with_exclude_serial (a : args) (l : list string) : args :=
  {| most_recent := most_recent a; format := format a;
     format_sep := format_sep a; serial := serial a; driver := driver a;
     model := model a; model_db := model_db a; vendor := vendor a;
     vendor_db := vendor_db a; iface_num := iface_num a;
     exclude_serial := Some l |}.

Section Script.
Context (P : platform).

(** lines 116-134; the argument is what [parser.parse_args()] returned *)
Definition parse_args (a : args) : result args :=
  _ ← check_formats (format a);
  match exclude_serial a with
  | None =>
      match environ P !! "EXCLUDE_TTY_SERIAL" with
      | Some v => Ok (with_exclude_serial a (split v))
      | None => Ok (with_exclude_serial a [])
      end
  | Some _ => Ok a
  end.

(** ** print_table *)

(** [str(v)] *)
Definition py_str (v : value) : string :=
  match v with
  | VNone => "None"
  | VStr s => s
  | VNum t => str_of_float P t
  end.

(** [len(v)] *)
Definition py_len (v : value) : result nat :=
  match v with
  | VStr s => Ok (String.length s)
  | _ => Raise TypeError
  end.

(** [n * "-"] and the padding of [f"{s:{n}}"] *)
Fixpoint repeat_char (c : ascii) (n : nat) : string :=
  match n with
  | O => ""
  | S n' => String c (repeat_char c n')
  end.

(** [f"{s:{n}}"] on a [str]: left-aligned, filled with spaces *)
Definition pad (s : string) (n : nat) : string :=
  s ++ repeat_char " " (n - String.length s).

(** lines 147-149 for one [item] *)
Fixpoint widen (it : dict) (headers : list string) (lengths : list nat)
    : result (list nat) :=
  match headers, lengths with
  | header :: hs, n :: ns =>
      v ← item it header;
      n' ← (if (n <? String.length (py_str v))%nat then py_len v
            else Ok n);
      ns' ← widen it hs ns;
      Ok (n' :: ns')
  | _, _ => Ok lengths
  end.

(** lines 146-149 *)
Fixpoint widen_all (data : list dict) (headers : list string)
    (lengths : list nat) : result (list nat) :=
  match data with
  | [] => Ok lengths
  | it :: data' =>
      lengths' ← widen it headers lengths;
      widen_all data' headers lengths'
  end.

(** lines 152-153 *)
Fixpoint header_cells (headers : list string) (lengths : list nat)
    : string :=
  match headers, lengths with
  | h :: hs, n :: ns => " | " ++ pad h n ++ header_cells hs ns
  | _, _ => ""
  end.

(** lines 155-156 *)
Fixpoint rule_cells (lengths : list nat) : string :=
  match lengths with
  | [] => ""
  | n :: ns => "-|-" ++ repeat_char "-" n ++ rule_cells ns
  end.

(** lines 160-161 *)
Fixpoint row_cells (it : dict) (headers : list string) (lengths : list nat)
    : M unit :=
  match headers, lengths with
  | header :: hs, n :: ns =>
      v ← lift (item it header);
      write (" | " ++ pad (py_str v) n);;
      row_cells it hs ns
  | _, _ => mret tt
  end.

(** lines 158-161 *)
Fixpoint rows (data : list dict) (headers : list string)
    (lengths : list nat) : M unit :=
  match data, headers, lengths with
  | [], _, _ => mret tt
  | it :: data', h0 :: hs, n0 :: ns =>
      v ← lift (item it h0);
      write (newline ++ pad (py_str v) n0);;
      row_cells it hs ns;;
      rows data' headers lengths
  | _ :: _, _, _ => raise IndexError
  end.

Definition print_table (data : list dict) (headers : list string)
    : M unit :=
  lengths ← lift (widen_all data headers (String.length <$> headers));
  match headers, lengths with
  | h0 :: hs, n0 :: ns =>
      write (pad h0 n0);;
      write (header_cells hs ns);;
      write (newline ++ repeat_char "-" n0);;
      write (rule_cells ns);;
      rows data headers lengths;;
      write newline
  | _, _ => raise IndexError
  end.

(** ** print_results *)

(** [time.strftime("%H:%M:%S", time.localtime(v))]: [localtime] reads
    the clock for [None] and raises [TypeError] on a string. *)
Definition display_time (v : value) : result string :=
  match v with
  | VNum t => Ok (strftime_hms P t)
  | VNone => Ok (strftime_hms P (clock P))
  | VStr _ => Raise TypeError
  end.

(** lines 177-179 *)
Fixpoint stamp_ctime (ttys : list ref) : M unit :=
  match ttys with
  | [] => mret tt
  | tty :: ttys' =>
      v ← getitem tty "ctime";
      s ← lift (display_time v);
      setitem tty "ctime" (VStr s);;
      stamp_ctime ttys'
  end.

Definition table_headers : list string :=
  ["path"; "driver"; "vendor"; "model"; "model_db"; "serial"; "ctime";
   "iface_num"].

(** The records a list of references stands for, read from the store. *)
Fixpoint deref_all (ttys : list ref) : M (list dict) :=
  match ttys with
  | [] => mret []
  | tty :: ttys' =>
      d ← deref tty;
      ds ← deref_all ttys';
      mret (d :: ds)
  end.

(** [s.rfind(sep)]: the highest index at which [sep] occurs in [s], or
    [-1] *)
Fixpoint rfind_from (i : nat) (s sep : string) : option nat :=
  match s with
  | "" => if String.prefix sep "" then Some i else None
  | String _ s' =>
      match rfind_from (S i) s' sep with
      | Some j => Some j
      | None => if String.prefix sep s then Some i else None
      end
  end.

Definition rfind (s sep : string) : Z :=
  match rfind_from 0 s sep with
  | Some j => Z.of_nat j
  | None => -1
  end.

(** [s[n:]] *)
Fixpoint drop_chars (n : nat) (s : string) : string :=
  match n, s with
  | S n', String _ s' => drop_chars n' s'
  | _, _ => s
  end.

(** lines 187-194: the inner loop, from the [line] built so far.
    [item.rfind] raises [AttributeError] when [item] is not a string. *)
Fixpoint build_line (sep : string) (fmts : list string) (tty : dict)
    (line : string) : result string :=
  match fmts with
  | [] => Ok line
  | fmt :: fmts' =>
      v ← item tty fmt;
      match v with
      | VStr s =>
          let it := if 0 <=? rfind s sep then json_dumps_str P s else s in
          build_line sep fmts' tty (line ++ sep ++ it)
      | _ => Raise AttributeError
      end
  end.

(** lines 185-195 *)
Fixpoint print_lines (a : args) (ttys : list ref) : M unit :=
  match ttys with
  | [] => mret tt
  | tty :: ttys' =>
      d ← deref tty;
      line ← lift (build_line (format_sep a) (format a) d "");
      print (drop_chars (String.length (format_sep a)) line);;
      print_lines a ttys'
  end.

Definition print_results (a : args) (ttys : list ref) : M unit :=
  match format a with
  | [fmt] =>
      if String.eqb fmt "json" then
        ds ← deref_all ttys;
        print (json_dumps_list P ds)
      else if String.eqb fmt "table" then
        stamp_ctime ttys;;
        ds ← deref_all ttys;
        print_table ds table_headers
      else print_lines a ttys
  | _ => print_lines a ttys
  end.

(** ** print_ttys *)

(** [a > b] *)
Definition py_gt (a b : value) : result bool :=
  match a, b with
  | VNum x, VNum y => Ok (bool_decide ((y ?= x)%Qc = Lt))
  | VStr x, VStr y => Ok (String.ltb y x)
  | _, _ => Raise TypeError
  end.

(** [v in l], for a list [l] of strings *)
Definition py_in (v : value) (l : list string) : bool :=
  match v with
  | VStr s => bool_decide (s ∈ l)
  | _ => false
  end.

(** [v not in args.exclude_serial]; the test raises [TypeError] when the
    attribute is [None] *)
Definition py_not_in (v : value) (l : option (list string)) : result bool :=
  match l with
  | Some l => Ok (negb (py_in v l))
  | None => Raise TypeError
  end.

(** [pyudev.Context().list_devices(subsystem='tty', ID_BUS='usb')] *)
Definition query_devices : M (list device) := fun w =>
  (Ok (list_devices P),
   {| heap := heap w; out := out w; err := err w;
      queries := S (queries w) |}).

(** lines 237-240, with the list [ttys] built so far *)
Fixpoint collect (excluded : option (list string))
    (fs : list (string * regex))
    (devs : list device) (ttys : list ref) : M (list ref) :=
  match devs with
  | [] => mret ttys
  | dev :: devs' =>
      tty ← tty2dict P dev;
      s ← getitem tty "serial";
      keep ← lift (py_not_in s excluded);
      if keep : bool then
        d ← deref tty;
        ok ← lift (filters_match fs d);
        if ok : bool then collect excluded fs devs' (ttys ++ [tty])
        else collect excluded fs devs' ttys
      else collect excluded fs devs' ttys
  end.

(** lines 245-247 *)
Fixpoint scan_most_recent (ttys : list ref) (most_recent : ref) : M ref :=
  match ttys with
  | [] => mret most_recent
  | tty :: ttys' =>
      x ← getitem tty "ctime";
      y ← getitem most_recent "ctime";
      newer ← lift (py_gt x y);
      scan_most_recent ttys' (if newer : bool then tty else most_recent)
  end.

(** lines 242-250 *)
Definition select_most_recent (flag : bool) (ttys : list ref)
    : M (list ref) :=
  if flag then
    match ttys with
    | first :: _ =>
        r ← scan_most_recent ttys first;
        mret [r]
    | [] => mret []
    end
  else mret ttys.

Definition print_ttys (argv : args) : M unit :=
  a ← lift (parse_args argv);
  fs ← lift (generate_filters P a);
  devs ← query_devices;
  ttys ← collect (exclude_serial a) fs devs [];
  ttys ← select_most_recent (most_recent a) ttys;
  match ttys with
  | [] => raise (SystemExit (ExitCode 1))
  | _ :: _ => print_results a ttys
  end.

(** What the interpreter does with the outcome of the script: status 0
    when it returns; [sys.exit(n)] gives status [n]; [sys.exit(msg)]
    prints [msg] to standard error and gives status 1; any other
    exception prints its traceback and gives status 1. *)
Definition report (x : err_item) (w : world) : world :=
  {| heap := heap w; out := out w; err := err w ++ [x];
     queries := queries w |}.

Definition main (argv : args) : Z * world :=
  match print_ttys argv world0 with
  | (Ok _, w) => (0, w)
  | (Raise (SystemExit (ExitCode n)), w) => (n, w)
  | (Raise (SystemExit (ExitMessage msg)), w) =>
      (1, report (ErrMessage msg) w)
  | (Raise e, w) => (1, report (ErrTraceback e) w)
  end.

End Script.

(** ** A host to run the script on

    [plain_host] answers for the library the way Python does on the
    inputs the examples below use: ASCII text without backslashes or
    control characters, interface numbers written as decimal digits,
    timestamps that are whole seconds, UTC as the local time zone, and
    patterns of the literal fragment only. *)

Fixpoint digits_value (acc : Z) (s : string) : option Z :=
  match s with
  | "" => Some acc
  | String c s' =>
      let n := nat_of_ascii c in
      if ((48 <=? n) && (n <=? 57))%nat
      then digits_value (10 * acc + Z.of_nat (n - 48)) s'
      else None
  end.

Definition plain_int (s : string) : option Z :=
  match s with
  | "" => None
  | _ => digits_value 0 s
  end.

Definition two_digits (n : Z) : string :=
  if n <? 10 then "0" ++ pretty n else pretty n.

Definition utc_hms (t : Qc) : string :=
  let s := Qfloor (this t) mod 86400 in
  two_digits (s / 3600) ++ ":" ++ two_digits (s mod 3600 / 60) ++ ":"
  ++ two_digits (s mod 60).

Definition plain_float (t : Qc) : string := pretty (Qfloor (this t)) ++ ".0".

Fixpoint json_escape (s : string) : string :=
  match s with
  | "" => ""
  | String c s' =>
      if Ascii.eqb c (ascii_of_nat 34) || Ascii.eqb c backslash
      then String backslash (String c (json_escape s'))
      else String c (json_escape s')
  end.

Definition plain_json_str (s : string) : string :=
  dquote ++ json_escape s ++ dquote.

Definition plain_json_value (v : value) : string :=
  match v with
  | VNone => "null"
  | VStr s => plain_json_str s
  | VNum t => plain_float t
  end.

(** The keys in the order [tty2dict] inserts them. *)
Definition record_keys : list string :=
  ["path"; "ctime"; "serial"; "driver"; "model"; "model_db"; "vendor";
   "vendor_db"; "iface_num"].

Fixpoint join (sep : string) (l : list string) : string :=
  match l with
  | [] => ""
  | [x] => x
  | x :: l' => x ++ sep ++ join sep l'
  end.

Definition plain_json_member (d : dict) (k : string) : list string :=
  match d !! k with
  | Some v => ["    " ++ plain_json_str k ++ ": " ++ plain_json_value v]
  | None => []
  end.

Definition plain_json_dict (d : dict) : string :=
  "  {" ++ newline
  ++ join ("," ++ newline) (record_keys ≫= plain_json_member d)
  ++ newline ++ "  }".

Definition plain_json_list (ds : list dict) : string :=
  match ds with
  | [] => "[]"
  | _ => "[" ++ newline ++ join ("," ++ newline) (plain_json_dict <$> ds)
         ++ newline ++ "]"
  end.

Definition plain_host (devs : list device) (ctimes : gmap string Z)
    (env : gmap string string) : platform :=
  {| list_devices := devs;
     stat_ctime := fun path => Qc_of_Z <$> ctimes !! path;
     environ := env;
     clock := Qc_of_Z 0;
     strftime_hms := utc_hms;
     decode_escapes := Ok;
     int_of_str := plain_int;
     str_of_float := plain_float;
     json_dumps_str := plain_json_str;
     json_dumps_list := plain_json_list;
     re_engine := fun _ => None |}.

(** Two boards: the first reports a serial number, the second does not;
    a third record lacks the encoded model. *)
Definition dev_acm0 : device :=
  list_to_map
    [("DEVNAME", "/dev/ttyACM0"); ("ID_SERIAL_SHORT", "XYZ");
     ("ID_USB_DRIVER", "cdc_acm"); ("ID_MODEL_ENC", "nRF52");
     ("ID_VENDOR_ENC", "Nordic"); ("ID_USB_INTERFACE_NUM", "01")].

Definition dev_usb0 : device :=
  list_to_map
    [("DEVNAME", "/dev/ttyUSB0"); ("ID_USB_DRIVER", "cp210x");
     ("ID_MODEL_ENC", "CP2102"); ("ID_VENDOR_ENC", "Silicon Labs");
     ("ID_VENDOR_FROM_DATABASE", "Silicon Labs");
     ("ID_USB_INTERFACE_NUM", "00")].

Definition dev_bare : device :=
  list_to_map
    [("DEVNAME", "/dev/ttyACM0"); ("ID_SERIAL_SHORT", "XYZ");
     ("ID_VENDOR_ENC", "Nordic"); ("ID_USB_INTERFACE_NUM", "01")].

Definition ctimes0 : gmap string Z :=
  list_to_map [("/dev/ttyACM0", 100); ("/dev/ttyUSB0", 200)].

Definition host0 : platform := plain_host [dev_acm0; dev_usb0] ctimes0 ∅.

(** ** Vocabulary of the properties *)

(** What it is for one predicate to hold of a record: the field is a
    string and the pattern matches it. *)
Definition predicate_holds (tty : dict) (p : string * regex) : Prop :=
  exists s, tty !! p.1 = Some (VStr s) /\ re_match p.2 s = true.

(** The pattern that [generate_filters] compiles for [--serial s], as a
    sequence of atoms. *)
Definition serial_atoms (s : string) : list atom :=
  Bol :: (Lit <$> list_ascii_of_string s) ++ [Eol].

(** The namespace [argparse] returns when no option is given. *)
Definition default_args : args :=
  {| most_recent := false; format := ["table"]; format_sep := " ";
     serial := None; driver := None; model := None; model_db := None;
     vendor := None; vendor_db := None; iface_num := None;
     exclude_serial := None |}.

Definition with_format (fmts : list string) (sep : string) (a : args) : args :=
  {| most_recent := most_recent a; format := fmts; format_sep := sep;
     serial := serial a; driver := driver a; model := model a;
     model_db := model_db a; vendor := vendor a; vendor_db := vendor_db a;
     iface_num := iface_num a; exclude_serial := exclude_serial a |}.

Definition with_serial (s : string) (a : args) : args :=
  {| most_recent := most_recent a; format := format a;
     format_sep := format_sep a; serial := Some s; driver := driver a;
     model := model a; model_db := model_db a; vendor := vendor a;
     vendor_db := vendor_db a; iface_num := iface_num a;
     exclude_serial := exclude_serial a |}.

Definition with_most_recent (a : args) : args :=
  {| most_recent := true; format := format a;
     format_sep := format_sep a; serial := serial a; driver := driver a;
     model := model a; model_db := model_db a; vendor := vendor a;
     vendor_db := vendor_db a; iface_num := iface_num a;
     exclude_serial := exclude_serial a |}.

(** The reference [r] holds a record whose [ctime] is the number [t]. *)
Definition has_ctime (h : list dict) (r : ref) (t : Qc) : Prop :=
  exists d, h !! r = Some d /\ d !! "ctime" = Some (VNum t).

(** The references [ttys] hold the records [ds]. *)
Definition resolves (h : list dict) (ttys : list ref) (ds : list dict)
    : Prop :=
  Forall2 (fun r d => h !! r = Some d) ttys ds.

(** Every requested field of the record is a string. *)
Definition fields_are_strings (fmts : list string) (d : dict) : Prop :=
  Forall (fun fmt => exists s, d !! fmt = Some (VStr s)) fmts.

(** Every requested field of the record is there. *)
Definition fields_present (fmts : list string) (d : dict) : Prop :=
  Forall (fun fmt => is_Some (d !! fmt)) fmts.

(** The format list selects the per-field lines, not [json] or [table]. *)
Definition fields_mode (fmts : list string) : Prop :=
  fmts <> ["json"] /\ fmts <> ["table"].

(** A host without devices, and one whose environment names two serials
    to exclude. *)
Definition host_empty : platform := plain_host [] ∅ ∅.

Definition host_env : platform :=
  plain_host [dev_acm0; dev_usb0] ctimes0
    {["EXCLUDE_TTY_SERIAL" := "AAA  BBB"]}.

(** The exclusion list the script works with, by the three states of
    [--exclude-serial]. *)
Definition exclusion_list (P : platform) (a : args) : list string :=
  match exclude_serial a with
  | Some l => l
  | None =>
      match environ P !! "EXCLUDE_TTY_SERIAL" with
      | Some v => split v
      | None => []
      end
  end.

Definition with_exclude (o : option (list string)) (a : args) : args :=
  {| most_recent := most_recent a; format := format a;
     format_sep := format_sep a; serial := serial a; driver := driver a;
     model := model a; model_db := model_db a; vendor := vendor a;
     vendor_db := vendor_db a; iface_num := iface_num a;
     exclude_serial := o |}.

(** The store after both boards have been read: reference 0 holds the
    record of the first (ctime 100), reference 1 that of the second
    (ctime 200). *)
Definition world_two : world :=
  (collect host0 (Some []) [] [dev_acm0; dev_usb0] [] world0).2.

(** The computation leaves the store as it found it. *)
Definition keeps_heap {A} (m : M A) : Prop :=
  forall w, heap (m w).2 = heap w.

(** What the per-field lines are made of: a field's text is the string,
    wrapped by [json.dumps] when the separator occurs in it; a record's
    line is the texts of the requested fields joined by the separator. *)
Definition field_text (P : platform) (sep : string) (d : dict)
    (fmt : string) : string :=
  match d !! fmt with
  | Some (VStr s) => if 0 <=? rfind s sep then json_dumps_str P s else s
  | _ => ""
  end.

Definition line_of (P : platform) (a : args) (d : dict) : string :=
  join (format_sep a) (field_text P (format_sep a) d <$> format a).

Fixpoint lines_of (P : platform) (a : args) (ds : list dict) : string :=
  match ds with
  | [] => ""
  | d :: ds' => line_of P a d ++ newline ++ lines_of P a ds'
  end.

(** The world [w] with [s] appended to standard output. *)
Definition printed (s : string) (w : world) : world :=
  {| heap := heap w; out := out w ++ s; err := err w;
     queries := queries w |}.

(** The text that the inner loop appends for a list of fields. *)
Fixpoint fields_suffix (P : platform) (sep : string) (d : dict)
    (fmts : list string) : string :=
  match fmts with
  | [] => ""
  | fmt :: fmts' =>
      sep ++ field_text P sep d fmt ++ fields_suffix P sep d fmts'
  end.

(** The two records of [world_two]. *)
Definition tty_acm0 : dict := default ∅ (heap world_two !! 0%nat).
Definition tty_usb0 : dict := default ∅ (heap world_two !! 1%nat).

(** The world once the devices have been queried. *)
Definition queried (w : world) : world :=
  {| heap := heap w; out := out w; err := err w; queries := S (queries w) |}.

(** The computation prints nothing, on either stream. *)
Definition keeps_out {A} (m : M A) : Prop :=
  forall w, out (m w).2 = out w /\ err (m w).2 = err w.

(** A value the table can show: [None] or a string. *)
Definition printable (v : value) : Prop :=
  v = VNone \/ exists s, v = VStr s.

(** The record has a printable value under each of the headers. *)
Definition cells_ready (headers : list string) (d : dict) : Prop :=
  Forall (fun h => exists v, d !! h = Some v /\ printable v) headers.

(** The shape of the records [tty2dict] builds: a numeric [ctime], and a
    string or a null under every other header of the table. *)
Definition extracted (d : dict) : Prop :=
  (exists t, d !! "ctime" = Some (VNum t))
  /\ cells_ready ["path"; "driver"; "vendor"; "model"; "model_db"; "serial";
                  "iface_num"] d.

(** The references are distinct and hold records built by [tty2dict]. *)
Definition collected (h : list dict) (ttys : list ref) : Prop :=
  NoDup ttys /\ Forall (fun r => exists d, h !! r = Some d /\ extracted d) ttys.

(** The field a filter is built on, when its option is given. *)
Definition supplied (key : string) (opt : option string) : list string :=
  match opt with
  | Some _ => [key]
  | None => []
  end.

(** The fields of the filters of a namespace, in the order in which
    [generate_filters] looks at the options. *)
Definition supplied_keys (a : args) : list string :=
  (supplied "serial" (serial a) ++ supplied "driver" (driver a)
   ++ supplied "model" (model a) ++ supplied "model_db" (model_db a)
   ++ supplied "vendor" (vendor a) ++ supplied "vendor_db" (vendor_db a)
   ++ supplied "iface_num" (iface_num a))%list.

(** The pattern of the option, when given, is one [re.compile] accepts. *)
Definition compiles (P : platform) (opt : option string) : Prop :=
  forall p, opt = Some p -> exists r, re_compile P p = Ok r.

(** The fields a filter can be on. *)
Definition filter_fields : list string :=
  ["serial"; "driver"; "model"; "model_db"; "vendor"; "vendor_db";
   "iface_num"].

(** A record as [tty2dict] leaves it: the path is a string, [ctime] a
    number, and each field a filter can be on a string or null. *)
Definition well_formed (d : dict) : Prop :=
  (exists p, d !! "path" = Some (VStr p))
  /\ (exists t, d !! "ctime" = Some (VNum t))
  /\ Forall (fun k => exists v, d !! k = Some v /\ printable v) filter_fields.

(** The record is kept by line 239: its serial is not in the exclusion
    list and every filter matches it. *)
Definition passes (excluded : list string) (fs : list (string * regex))
    (d : dict) : Prop :=
  exists v, d !! "serial" = Some v /\ py_in v excluded = false
            /\ filters_match fs d = Ok true.

(** What the loop of lines 237-240 maintains, from a store that had [n0]
    records: the references collected are those of the records stored
    since that pass, in increasing order. *)
Definition collect_invariant (excluded : list string)
    (fs : list (string * regex)) (n0 : nat) (h : list dict)
    (ttys : list ref) : Prop :=
  (forall r d, h !! r = Some d -> (n0 <= r)%nat ->
               (r ∈ ttys <-> passes excluded fs d))
  /\ (forall r, r ∈ ttys -> (n0 <= r < length h)%nat)
  /\ StronglySorted lt ttys.

(** A value [>] accepts on both sides of itself: a number or a string. *)
Definition comparable (v : value) : Prop :=
  (exists t, v = VNum t) \/ (exists s, v = VStr s).

(** [sep] occurs in [s]. *)
Definition occurs_in (sep s : string) : Prop :=
  exists pre post, s = pre ++ sep ++ post.

(** The record's [ctime] is a number or, once stamped, a string. *)
Definition ctime_set (h : list dict) (r : ref) : Prop :=
  exists d v, h !! r = Some d /\ d !! "ctime" = Some v /\ comparable v.

(** The record's [ctime] has been replaced by its display string. *)
Definition ctime_stamped (h : list dict) (r : ref) : Prop :=
  exists d s, h !! r = Some d /\ d !! "ctime" = Some (VStr s).

(** The computation does not enumerate the devices. *)
Definition keeps_queries {A} (m : M A) : Prop :=
  forall w, queries (m w).2 = queries w.

(** The text holds nothing but whitespace. *)
Definition blank (s : string) : Prop :=
  Forall (fun c => is_space c = true) (list_ascii_of_string s).

(** The text of a cell of the table: [str(item[header])]. *)
Definition cell (P : platform) (d : dict) (h : string) : string :=
  match d !! h with
  | Some v => py_str P v
  | None => ""
  end.

(** The width of a column: the greatest of the length of its header and
    the lengths of its cells. *)
Definition column_width (P : platform) (data : list dict) (h : string)
    : nat :=
  max_list (String.length h
            :: ((fun d => String.length (cell P d h)) <$> data)).

Definition column_widths (P : platform) (data : list dict)
    (headers : list string) : list nat :=
  column_width P data <$> headers.

(** The lines of the table: the headers, the rule, one row per record. *)
Fixpoint cells_text (P : platform) (d : dict) (headers : list string)
    (lengths : list nat) : string :=
  match headers, lengths with
  | h :: hs, n :: ns => " | " ++ pad (cell P d h) n ++ cells_text P d hs ns
  | _, _ => ""
  end.

Definition row_text (P : platform) (headers : list string)
    (lengths : list nat) (d : dict) : string :=
  match headers, lengths with
  | h0 :: hs, n0 :: ns => pad (cell P d h0) n0 ++ cells_text P d hs ns
  | _, _ => ""
  end.

Definition header_text (headers : list string) (lengths : list nat)
    : string :=
  match headers, lengths with
  | h0 :: hs, n0 :: ns => pad h0 n0 ++ header_cells hs ns
  | _, _ => ""
  end.

Definition rule_text (lengths : list nat) : string :=
  match lengths with
  | n0 :: ns => repeat_char "-" n0 ++ rule_cells ns
  | [] => ""
  end.

Definition table_lines (P : platform) (data : list dict)
    (headers : list string) (lengths : list nat) : list string :=
  header_text headers lengths :: rule_text lengths
  :: (row_text P headers lengths <$> data).

(** The width of a line: the columns, and three characters between two
    columns. *)
Definition line_width (lengths : list nat) : nat :=
  (sum_list lengths + 3 * (length lengths - 1))%nat.

(** What lines 147-149 make of the widths, for one record and for all. *)
Fixpoint widened (P : platform) (d : dict) (headers : list string)
    (lengths : list nat) : list nat :=
  match headers, lengths with
  | h :: hs, n :: ns =>
      Nat.max n (String.length (cell P d h)) :: widened P d hs ns
  | _, _ => lengths
  end.

Fixpoint widened_all (P : platform) (data : list dict)
    (headers : list string) (lengths : list nat) : list nat :=
  match data with
  | [] => lengths
  | d :: data' => widened_all P data' headers (widened P d headers lengths)
  end.

(** The text that lines 158-161 write. *)
Fixpoint rows_text (P : platform) (data : list dict) (headers : list string)
    (lengths : list nat) : string :=
  match data with
  | [] => ""
  | d :: data' =>
      newline ++ row_text P headers lengths d
      ++ rows_text P data' headers lengths
  end.

(** Two records for a table of two columns: one without serial. *)
Definition two_rows : list dict :=
  [ {[ "path" := VStr "/dev/ttyACM0"; "serial" := VNone ]};
    {[ "path" := VStr "/dev/ttyUSB10"; "serial" := VStr "A1234567" ]} ].

(** The whole table, as [print_table] writes it. *)
Definition table_text (P : platform) (data : list dict)
    (headers : list string) : string :=
  join newline
    (table_lines P data headers (column_widths P data headers))
  ++ newline.

(** The record as the table mode leaves it: the timestamp replaced by its
    display. *)
Definition stamped (P : platform) (d : dict) : dict :=
  match d !! "ctime" with
  | Some (VNum t) => <["ctime" := VStr (strftime_hms P t)]> d
  | _ => d
  end.

(** ** Running the monad in proofs *)

Ltac unfold_M :=
  unfold getitem in *;
  unfold mbind, mret, M_bind, M_ret, result_bind, result_ret, lift, raise,
    deref, item in *.

(** * Properties *)

(** ** Attribute extraction *)

Lemma tty2dict_fails_without_model P dev w :
  dev !! "ID_MODEL_ENC" = None ->
  exists e, tty2dict P dev w = (Raise e, w).
Proof.
  intros Hm. unfold tty2dict. unfold_M. rewrite Hm.
  destruct (os_stat_ctime P (dev !! "DEVNAME")); simpl; eauto.
Qed.

Lemma tty2dict_fails_without_vendor P dev w :
  dev !! "ID_VENDOR_ENC" = None ->
  exists e, tty2dict P dev w = (Raise e, w).
Proof.
  intros Hv. unfold tty2dict. unfold_M. rewrite Hv.
  destruct (os_stat_ctime P (dev !! "DEVNAME")); simpl; eauto.
  destruct (unescape P (dev !! "ID_MODEL_ENC")); simpl; eauto.
Qed.

Lemma tty2dict_fails_without_iface P dev w :
  dev !! "ID_USB_INTERFACE_NUM" = None ->
  exists e, tty2dict P dev w = (Raise e, w).
Proof.
  intros Hi. unfold tty2dict. unfold_M. rewrite Hi.
  destruct (os_stat_ctime P (dev !! "DEVNAME")); simpl; eauto.
  destruct (unescape P (dev !! "ID_MODEL_ENC")); simpl; eauto.
  destruct (unescape P (dev !! "ID_VENDOR_ENC")); simpl; eauto.
Qed.

(** What the first failing step raises, for a device node that can be
    examined: [bytes(None, "utf8")] and [int(None)] raise [TypeError]. *)
Lemma tty2dict_absent_raises_TypeError (P : platform) (dev : device)
    (w : world) (path : string) (t : Qc) :
  dev !! "DEVNAME" = Some path -> stat_ctime P path = Some t ->
  (dev !! "ID_MODEL_ENC" = None ->
   tty2dict P dev w = (Raise TypeError, w))
  /\ (forall m m',
        dev !! "ID_MODEL_ENC" = Some m -> decode_escapes P m = Ok m' ->
        dev !! "ID_VENDOR_ENC" = None ->
        tty2dict P dev w = (Raise TypeError, w))
  /\ (forall m m' v v',
        dev !! "ID_MODEL_ENC" = Some m -> decode_escapes P m = Ok m' ->
        dev !! "ID_VENDOR_ENC" = Some v -> decode_escapes P v = Ok v' ->
        dev !! "ID_USB_INTERFACE_NUM" = None ->
        tty2dict P dev w = (Raise TypeError, w)).
Proof.
  intros Hp Ht. split; [| split].
  - intros Hm. unfold tty2dict. unfold_M.
    rewrite Hp, Hm. simpl. by rewrite Ht.
  - intros m m' Hm Hm' Hv. unfold tty2dict. unfold_M.
    rewrite Hp, Hm, Hv. simpl. by rewrite Ht, Hm'.
  - intros m m' v v' Hm Hm' Hv Hv' Hi. unfold tty2dict. unfold_M.
    rewrite Hp, Hm, Hv, Hi. simpl. by rewrite Ht, Hm', Hv'.
Qed.

(** C2, as the code has it.  The four properties that are passed through
    (serial, driver, model_db, vendor_db) give a null field when absent
    and cannot make extraction fail.  The encoded model and vendor are
    always unescaped and the interface number is always parsed and
    written back in decimal: when they are present and convert, the
    record is built with every optional field as described; when one of
    the three is absent, extraction raises and stores nothing, and what
    it raises is [TypeError] whenever the steps before the absent
    property succeed: the device node can be examined, and the encoded
    properties read before the absent one are present and decode. *)
Theorem tty2dict_optional_properties (P : platform) (dev : device) (w : world) :
  (forall path t m m' v v' i n,
      dev !! "DEVNAME" = Some path -> stat_ctime P path = Some t ->
      dev !! "ID_MODEL_ENC" = Some m -> decode_escapes P m = Ok m' ->
      dev !! "ID_VENDOR_ENC" = Some v -> decode_escapes P v = Ok v' ->
      dev !! "ID_USB_INTERFACE_NUM" = Some i -> int_of_str P i = Some n ->
      exists d : dict,
        tty2dict P dev w
        = (Ok (length (heap w)),
           {| heap := heap w ++ [d]; out := out w; err := err w;
              queries := queries w |})
        /\ d !! "path" = Some (VStr path)
        /\ d !! "ctime" = Some (VNum t)
        /\ d !! "serial" = Some (of_get (dev !! "ID_SERIAL_SHORT"))
        /\ d !! "driver" = Some (of_get (dev !! "ID_USB_DRIVER"))
        /\ d !! "model" = Some (VStr m')
        /\ d !! "model_db" = Some (of_get (dev !! "ID_MODEL_FROM_DATABASE"))
        /\ d !! "vendor" = Some (VStr v')
        /\ d !! "vendor_db" = Some (of_get (dev !! "ID_VENDOR_FROM_DATABASE"))
        /\ d !! "iface_num" = Some (VStr (str_of_int n)))
  /\ (dev !! "ID_MODEL_ENC" = None \/ dev !! "ID_VENDOR_ENC" = None
      \/ dev !! "ID_USB_INTERFACE_NUM" = None ->
      exists e, tty2dict P dev w = (Raise e, w))
  /\ (forall path t,
        dev !! "DEVNAME" = Some path -> stat_ctime P path = Some t ->
        (dev !! "ID_MODEL_ENC" = None ->
         tty2dict P dev w = (Raise TypeError, w))
        /\ (forall m m',
              dev !! "ID_MODEL_ENC" = Some m -> decode_escapes P m = Ok m' ->
              dev !! "ID_VENDOR_ENC" = None ->
              tty2dict P dev w = (Raise TypeError, w))
        /\ (forall m m' v v',
              dev !! "ID_MODEL_ENC" = Some m -> decode_escapes P m = Ok m' ->
              dev !! "ID_VENDOR_ENC" = Some v -> decode_escapes P v = Ok v' ->
              dev !! "ID_USB_INTERFACE_NUM" = None ->
              tty2dict P dev w = (Raise TypeError, w))).
Proof.
  split; [| split].
  - intros path t m m' v v' i n Hp Ht Hm Hm' Hv Hv' Hi Hn.
    unfold tty2dict. unfold_M.
    rewrite Hp, Hm, Hv, Hi. simpl. rewrite Ht, Hm', Hv', Hn. simpl.
    eexists. split; [reflexivity |].
    repeat split; by simplify_map_eq.
  - intros [H | [H | H]];
      eauto using tty2dict_fails_without_model,
        tty2dict_fails_without_vendor, tty2dict_fails_without_iface.
  - intros path t Hp Ht.
    exact (tty2dict_absent_raises_TypeError P dev w path t Hp Ht).
Qed.

(** The second board has no serial number and no model in the database:
    both fields come out null, the interface number [00] comes out as
    [0].  The same board without its interface number, and without its
    vendor, raises [TypeError]. *)
Lemma tty2dict_optional_properties_witness :
  (exists d : dict,
     tty2dict host0 dev_usb0 world0
     = (Ok 0%nat, {| heap := [d]; out := ""; err := []; queries := 0 |})
     /\ d !! "serial" = Some VNone
     /\ d !! "model_db" = Some VNone
     /\ d !! "iface_num" = Some (VStr "0"))
  /\ tty2dict host0 (delete "ID_USB_INTERFACE_NUM" dev_usb0) world0
     = (Raise TypeError, world0)
  /\ tty2dict host0 (delete "ID_VENDOR_ENC" dev_usb0) world0
     = (Raise TypeError, world0).
Proof.
  split; [| split].
  - destruct (tty2dict_optional_properties host0 dev_usb0 world0)
      as (Hok & _ & _).
    destruct (Hok "/dev/ttyUSB0" (Qc_of_Z 200) "CP2102" "CP2102"
                "Silicon Labs" "Silicon Labs" "00" 0)
      as (d & Hrun & _ & _ & Hs & _ & _ & Hdb & _ & _ & Hi);
      try reflexivity.
    exists d. repeat split; assumption.
  - destruct (tty2dict_optional_properties host0
                (delete "ID_USB_INTERFACE_NUM" dev_usb0) world0)
      as (_ & _ & Hraise).
    destruct (Hraise "/dev/ttyUSB0" (Qc_of_Z 200)
                ltac:(reflexivity) ltac:(reflexivity)) as (_ & _ & Hiface).
    apply (Hiface "CP2102" "CP2102" "Silicon Labs" "Silicon Labs");
      reflexivity.
  - destruct (tty2dict_optional_properties host0
                (delete "ID_VENDOR_ENC" dev_usb0) world0)
      as (_ & _ & Hraise).
    destruct (Hraise "/dev/ttyUSB0" (Qc_of_Z 200)
                ltac:(reflexivity) ltac:(reflexivity)) as (_ & Hvendor & _).
    apply (Hvendor "CP2102" "CP2102"); reflexivity.
Defined.

(** C2 as stated fails: a device record without [ID_MODEL_ENC] makes
    extraction raise [TypeError]. *)
Lemma tty2dict_absent_model_raises :
  dev_bare !! "ID_MODEL_ENC" = None
  /\ tty2dict host0 dev_bare world0 = (Raise TypeError, world0).
Proof. split; reflexivity. Qed.

(** ** The filter engine *)

Lemma filters_match_true_iff (fs : list (string * regex)) (tty : dict) :
  filters_match fs tty = Ok true <-> Forall (predicate_holds tty) fs.
Proof.
  induction fs as [| [key regex] fs IH]; simpl.
  - split; [constructor | reflexivity].
  - unfold item. split.
    + destruct (tty !! key) as [[| s | t] |] eqn:Hk; try discriminate.
      destruct (re_match regex s) eqn:Hm; [| discriminate].
      intros H. constructor; [exists s; auto | by apply IH].
    + intros H. inversion H as [| ? ? (s & Hs & Hm) Hfs]; subst.
      simpl in Hs, Hm. rewrite Hs, Hm. by apply IH.
Qed.

Lemma filters_match_null_field (fs : list (string * regex)) (tty : dict)
    (key : string) (regex : regex) :
  (key, regex) ∈ fs ->
  filters_match fs tty = Ok true ->
  filters_match fs (<[key := VNone]> tty) = Ok false.
Proof.
  induction fs as [| [k r] fs IH]; intros Hin Hm.
  - by apply elem_of_nil in Hin.
  - simpl in *. unfold item in *.
    destruct (decide (k = key)) as [-> | Hne].
    + by rewrite lookup_insert_eq.
    + rewrite lookup_insert_ne by congruence.
      apply elem_of_cons in Hin as [Heq | Hin]; [congruence |].
      destruct (tty !! k) as [[| s | t] |]; try discriminate.
      destruct (re_match r s); [auto | discriminate].
Qed.

(** C7.  [filters_match] answers [True] exactly when every predicate of
    the filter set finds its field non-null and matched by its pattern
    (so the empty filter set matches every record); and once it has
    answered [True], setting to null any field that a predicate of the
    set refers to makes it answer [False]. *)
Theorem filters_match_conjunction (fs : list (string * regex)) (tty : dict) :
  (filters_match fs tty = Ok true <-> Forall (predicate_holds tty) fs)
  /\ filters_match [] tty = Ok true
  /\ (forall key regex,
        (key, regex) ∈ fs ->
        filters_match fs tty = Ok true ->
        filters_match fs (<[key := VNone]> tty) = Ok false).
Proof.
  split; [apply filters_match_true_iff |].
  split; [reflexivity |].
  intros key regex. apply filters_match_null_field.
Qed.

(** A filter set with one predicate on the serial number matches the
    first board's record, and no longer does once the serial is null. *)
Lemma filters_match_conjunction_witness :
  filters_match [("serial", Atoms [Bol; Lit "X"; Eol])]
    (<["serial" := VNone]> {["serial" := VStr "X"]})
  = Ok false.
Proof.
  destruct (filters_match_conjunction
              [("serial", Atoms [Bol; Lit "X"; Eol])]
              {["serial" := VStr "X"]}) as (_ & _ & Hnull).
  apply (Hnull "serial" (Atoms [Bol; Lit "X"; Eol])).
  - apply list_elem_of_here.
  - reflexivity.
Defined.

(** ** The serial predicate *)

Lemma escaped_not_alnum (c : ascii) :
  char_in c escape_chars = true -> is_alnum c = false.
Proof.
  destruct c as [[] [] [] [] [] [] [] []]; vm_compute; congruence.
Qed.

Lemma unescaped_is_literal (c : ascii) :
  char_in c escape_chars = false ->
  Ascii.eqb c backslash = false /\ Ascii.eqb c "^" = false
  /\ Ascii.eqb c "$" = false /\ char_in c meta_chars = false.
Proof.
  destruct c as [[] [] [] [] [] [] [] []]; vm_compute; intros H;
    repeat split; congruence.
Qed.

Lemma parse_atoms_escape (s rest : string) (l : list atom) :
  parse_atoms rest = Some l ->
  parse_atoms (re_escape s ++ rest)
  = Some ((Lit <$> list_ascii_of_string s) ++ l)%list.
Proof.
  intros Hrest. induction s as [| c s IH]; simpl; [exact Hrest |].
  destruct (char_in c escape_chars) eqn:Hc.
  - simpl. rewrite (escaped_not_alnum c Hc).
    by rewrite IH.
  - destruct (unescaped_is_literal c Hc) as (Hb & Hbol & Heol & Hmeta).
    simpl. rewrite Hb, Hbol, Heol, Hmeta. by rewrite IH.
Qed.

Lemma re_compile_serial (P : platform) (s : string) :
  re_compile P ("^" ++ re_escape s ++ "$") = Ok (Atoms (serial_atoms s)).
Proof.
  unfold re_compile, serial_atoms.
  change ("^" ++ re_escape s ++ "$")
    with (String "^" (re_escape s ++ "$")).
  cbn [parse_atoms].
  assert (Ascii.eqb "^" backslash = false) as -> by reflexivity.
  assert (Ascii.eqb "^" "^" = true) as -> by reflexivity.
  by rewrite (parse_atoms_escape s "$" [Eol]).
Qed.

Lemma match_literal_then_end (s x : string) (at_start : bool) :
  match_atoms ((Lit <$> list_ascii_of_string s) ++ [Eol])%list at_start x
  = true
  <-> x = s \/ x = s ++ newline.
Proof.
  revert x at_start. induction s as [| c s IH]; intros x at_start; simpl.
  - rewrite andb_true_r, orb_true_iff, !String.eqb_eq. reflexivity.
  - destruct x as [| c' x]; [split; [discriminate | intros [|]; discriminate] |].
    rewrite andb_true_iff, Ascii.eqb_eq, IH. split.
    + intros [-> [-> | ->]]; auto.
    + intros [H | H]; injection H as -> ->; auto.
Qed.

(** What the compiled serial predicate accepts: the literal filter value,
    and the filter value followed by one newline. *)
Lemma serial_predicate_accepts (s x : string) :
  re_match (Atoms (serial_atoms s)) x = true <-> x = s \/ x = s ++ newline.
Proof. unfold serial_atoms. simpl. apply match_literal_then_end. Qed.

(** [generate_filters] with only [--serial s] given: one predicate, on
    the field [serial], with the escaped and anchored pattern. *)
Lemma generate_filters_serial (P : platform) (a : args) (s : string) :
  serial a = Some s -> driver a = None -> model a = None ->
  model_db a = None -> vendor a = None -> vendor_db a = None ->
  iface_num a = None ->
  generate_filters P a = Ok [("serial", Atoms (serial_atoms s))].
Proof.
  intros Hs Hd Hm Hmd Hv Hvd Hi. unfold generate_filters.
  rewrite Hs, Hd, Hm, Hmd, Hv, Hvd, Hi.
  unfold append_filter. unfold_M. rewrite re_compile_serial. reflexivity.
Qed.

(** The serial predicate on a record: it holds exactly when the serial is
    the filter value, or the filter value followed by one newline. *)
Lemma serial_filter_matches (s : string) (tty : dict) :
  filters_match [("serial", Atoms (serial_atoms s))] tty = Ok true
  <-> exists x, tty !! "serial" = Some (VStr x)
                /\ (x = s \/ x = s ++ newline).
Proof.
  rewrite filters_match_true_iff. split.
  - intros H. inversion H as [| ? ? (x & Hx & Hm) _]; subst.
    exists x. split; [exact Hx |]. by apply serial_predicate_accepts.
  - intros (x & Hx & Hm). constructor; [| constructor].
    exists x. split; [exact Hx |]. by apply serial_predicate_accepts.
Qed.


(** ** Format validation and the exclusion list *)

Lemma uncombinable_not_combinable (fmt : string) :
  fmt ∈ formats_uncombinable -> fmt ∉ formats_combinable.
Proof.
  unfold formats_uncombinable. rewrite elem_of_list_to_set.
  intros H. repeat (apply elem_of_cons in H as [-> | H]);
    [| | by apply elem_of_nil in H];
    apply (bool_decide_eq_false_1 _); reflexivity.
Qed.

Lemma unsupported_not_combinable (fmt : string) :
  fmt ∉ supported_formats -> fmt ∉ formats_combinable.
Proof.
  intros Hno Hin. apply Hno. unfold supported_formats.
  apply elem_of_union. by left.
Qed.

Lemma check_combinable_exits (fmts : list string) (fmt : string) :
  fmt ∈ fmts -> fmt ∉ formats_combinable ->
  exists msg, check_combinable fmts = Raise (SystemExit (ExitMessage msg)).
Proof.
  intros Hin Hno. induction fmts as [| f fmts IH].
  - by apply elem_of_nil in Hin.
  - simpl. case_bool_decide as Hf.
    + apply elem_of_cons in Hin as [-> | Hin]; [done | auto].
    + case_bool_decide; unfold not_combinable, not_supported; eauto.
Qed.

Lemma check_formats_exits (fmts : list string) :
  (1 < length fmts)%nat
    /\ (exists fmt, fmt ∈ fmts /\ fmt ∈ formats_uncombinable)
  \/ (exists fmt, fmt ∈ fmts /\ fmt ∉ supported_formats) ->
  exists msg, check_formats fmts = Raise (SystemExit (ExitMessage msg)).
Proof.
  intros [[Hlen (fmt & Hin & Hun)] | (fmt & Hin & Hun)].
  - destruct fmts as [| f [| g fmts]]; simpl in Hlen; try lia.
    apply (check_combinable_exits _ fmt Hin).
    by apply uncombinable_not_combinable.
  - destruct fmts as [| f [| g fmts]].
    + by apply elem_of_nil in Hin.
    + apply list_elem_of_singleton in Hin as ->. simpl.
      case_bool_decide; [done |]. unfold not_supported. eauto.
    + apply (check_combinable_exits _ fmt Hin).
      by apply unsupported_not_combinable.
Qed.

(** C4, as the code has it.  When more than one format is requested and
    one of them is [table] or [json], or when a requested format is not a
    supported one, the script stops before it queries any device: one
    message on standard error, nothing on standard output, exit status 1.
    The status is not zero; it is the status of [sys.exit(1)] as well. *)
Theorem invalid_format_exits (P : platform) (a : args) :
  (1 < length (format a))%nat
    /\ (exists fmt, fmt ∈ format a /\ fmt ∈ formats_uncombinable)
  \/ (exists fmt, fmt ∈ format a /\ fmt ∉ supported_formats) ->
  exists msg,
    main P a
    = (1, {| heap := []; out := ""; err := [ErrMessage msg];
             queries := 0%nat |}).
Proof.
  intros H. destruct (check_formats_exits _ H) as [msg Hmsg].
  exists msg. unfold main, print_ttys, parse_args. unfold_M.
  rewrite Hmsg. reflexivity.
Qed.

(** [--format table json] on the host with two boards. *)
Lemma invalid_format_exits_witness :
  exists msg,
    main host0 (with_format ["table"; "json"] " " default_args)
    = (1, {| heap := []; out := ""; err := [ErrMessage msg];
             queries := 0%nat |}).
Proof.
  apply invalid_format_exits. left. split; [simpl; lia |].
  exists "table". split.
  - apply list_elem_of_here.
  - apply (bool_decide_eq_true_1 _). reflexivity.
Defined.

(** C4 as stated fails: the exit status of an invalid format request is
    the exit status of a run that finds no device. *)
Lemma invalid_format_status_is_no_match_status :
  (main host0 (with_format ["table"; "json"] " " default_args)).1 = 1
  /\ (main host0 (with_format ["bogus"] " " default_args)).1 = 1
  /\ main host_empty default_args
     = (1, {| heap := []; out := ""; err := []; queries := 1%nat |}).
Proof. repeat split; reflexivity. Qed.

(** C9.  After [parse_args], the exclusion list is: the values given to
    [--exclude-serial] when the flag is given, even when there are none
    and the environment sets [EXCLUDE_TTY_SERIAL]; the words of
    [EXCLUDE_TTY_SERIAL] when the flag is absent and the variable is set;
    empty when both are absent. *)
Theorem exclusion_list_tristate (P : platform) (a : args) :
  check_formats (format a) = Ok tt ->
  (exists a', parse_args P a = Ok a'
              /\ exclude_serial a' = Some (exclusion_list P a))
  /\ (forall l, exclude_serial a = Some l -> exclusion_list P a = l)
  /\ (forall v, exclude_serial a = None ->
                environ P !! "EXCLUDE_TTY_SERIAL" = Some v ->
                exclusion_list P a = split v)
  /\ (exclude_serial a = None ->
      environ P !! "EXCLUDE_TTY_SERIAL" = None ->
      exclusion_list P a = []).
Proof.
  intros Hfmt. unfold parse_args, exclusion_list. unfold_M. rewrite Hfmt.
  repeat split.
  - destruct (exclude_serial a) as [l |] eqn:He; [eauto |].
    destruct (environ P !! "EXCLUDE_TTY_SERIAL"); eauto.
  - by intros l ->.
  - by intros v -> ->.
  - by intros -> ->.
Qed.

(** With [EXCLUDE_TTY_SERIAL] set to two serials: the flag given without
    values leaves the list empty, the flag absent takes the two serials. *)
Lemma exclusion_list_tristate_witness :
  (exists a', parse_args host_env (with_exclude (Some []) default_args)
              = Ok a' /\ exclude_serial a' = Some [])
  /\ (exists a', parse_args host_env default_args = Ok a'
                 /\ exclude_serial a' = Some ["AAA"; "BBB"]).
Proof.
  split.
  - destruct (exclusion_list_tristate host_env
                (with_exclude (Some []) default_args)) as [H _];
      [reflexivity | exact H].
  - destruct (exclusion_list_tristate host_env default_args) as [H _];
      [reflexivity | exact H].
Defined.

(** ** Selection of the most recent record *)

Lemma getitem_ctime (w : world) (r : ref) (t : Qc) :
  has_ctime (heap w) r t -> getitem r "ctime" w = (Ok (VNum t), w).
Proof.
  intros (d & Hr & Hd). unfold_M. rewrite Hr. simpl. by rewrite Hd.
Qed.

(** The loop of lines 245-247, started with [best] as [most_recent]:
    it ends on a record at least as recent as [best] and as every record
    scanned; either it is still [best], or it is the first record of the
    list to carry that timestamp, strictly more recent than [best]. *)
Lemma scan_most_recent_spec (w : world) (ttys : list ref) (ts : list Qc) :
  Forall2 (has_ctime (heap w)) ttys ts ->
  forall (best : ref) (tb : Qc),
    has_ctime (heap w) best tb ->
    exists r t,
      scan_most_recent ttys best w = (Ok r, w)
      /\ has_ctime (heap w) r t
      /\ (tb <= t)%Qc
      /\ (forall t', t' ∈ ts -> (t' <= t)%Qc)
      /\ (r = best /\ t = tb
          \/ exists i, ttys !! i = Some r /\ ts !! i = Some t /\ (tb < t)%Qc
               /\ forall j t', (j < i)%nat -> ts !! j = Some t' ->
                               (t' < t)%Qc).
Proof.
  induction 1 as [| r1 t1 ttys ts H1 Hrest IH]; intros best tb Hbest.
  - exists best, tb. simpl.
    split; [reflexivity |]. split; [exact Hbest |].
    split; [apply Qcle_refl |]. split; [| by left].
    intros t' Hin. by apply elem_of_nil in Hin.
  - cbn [scan_most_recent]. unfold mbind, M_bind at 1.
    rewrite (getitem_ctime w r1 t1 H1). unfold mbind, M_bind at 1.
    rewrite (getitem_ctime w best tb Hbest). unfold py_gt, lift.
    unfold mbind, M_bind at 1.
    case_bool_decide as Hlt.
    + apply Qclt_alt in Hlt.
      destruct (IH r1 t1 H1) as (r & t & Hrun & Hr & Hle & Hall & Hcase).
      exists r, t. split; [exact Hrun |]. split; [exact Hr |].
      split; [apply Qclt_le_weak; eapply Qclt_le_trans; eauto |].
      split.
      * intros t' Hin. apply elem_of_cons in Hin as [-> | Hin]; auto.
      * right. destruct Hcase as [[-> ->] | (i & Hi & Hti & Hlti & Hbefore)].
        -- exists 0%nat. split; [reflexivity |]. split; [reflexivity |].
           split; [exact Hlt |]. intros j t' Hj. lia.
        -- exists (S i). split; [exact Hi |]. split; [exact Hti |].
           split; [eapply Qclt_trans; eauto |].
           intros [| j] t' Hj Hl; simpl in Hl.
              ** injection Hl as <-. exact Hlti.
              ** apply (Hbefore j); [lia | exact Hl].
    + assert (t1 <= tb)%Qc as Hge.
      { apply Qcnot_lt_le. intros Hc. apply Hlt. by apply Qclt_alt. }
      destruct (IH best tb Hbest)
        as (r & t & Hrun & Hr & Hle & Hall & Hcase).
      exists r, t. split; [exact Hrun |]. split; [exact Hr |].
      split; [exact Hle |]. split.
      * intros t' Hin. apply elem_of_cons in Hin as [-> | Hin]; auto.
        eapply Qcle_trans; eauto.
      * destruct Hcase as [[-> ->] | (i & Hi & Hti & Hlti & Hbefore)];
          [by left | right].
        exists (S i). split; [exact Hi |]. split; [exact Hti |].
        split; [exact Hlti |].
        intros [| j] t' Hj Hl; simpl in Hl.
        -- injection Hl as <-. eapply Qcle_lt_trans; eauto.
        -- apply (Hbefore j); [lia | exact Hl].
Qed.

(** C8.  Without the flag the list is returned as it is.  With the flag,
    an empty list stays empty, and a list of records with numeric
    timestamps is reduced to one record: the one at the first position
    whose [ctime] is the maximum, so that every record is at most as
    recent and every record before it is strictly older. *)
Theorem select_most_recent_first_maximum (w : world) (ttys : list ref)
    (ts : list Qc) :
  select_most_recent false ttys w = (Ok ttys, w)
  /\ select_most_recent true [] w = (Ok [], w)
  /\ (Forall2 (has_ctime (heap w)) ttys ts ->
      ttys <> [] ->
      exists i r t,
        ttys !! i = Some r /\ ts !! i = Some t
        /\ select_most_recent true ttys w = (Ok [r], w)
        /\ (forall j t', ts !! j = Some t' -> (t' <= t)%Qc)
        /\ (forall j t', (j < i)%nat -> ts !! j = Some t' -> (t' < t)%Qc)).
Proof.
  split; [reflexivity |]. split; [reflexivity |].
  intros Hall Hne. destruct Hall as [| first t0 ttys ts H0 Hrest]; [done |].
  assert (Forall2 (has_ctime (heap w)) (first :: ttys) (t0 :: ts)) as Hall
    by (constructor; assumption).
  destruct (scan_most_recent_spec w _ _ Hall first t0 H0)
    as (r & t & Hrun & Hr & Hle & Hmax & Hcase).
  assert (forall j t', (t0 :: ts) !! j = Some t' -> (t' <= t)%Qc) as Hmax'.
  { intros j t' Hj. apply Hmax. eapply list_elem_of_lookup_2. exact Hj. }
  unfold select_most_recent. unfold mbind, M_bind. rewrite Hrun.
  destruct Hcase as [[-> ->] | (i & Hi & Hti & _ & Hbefore)].
  - exists 0%nat, first, t0. split; [reflexivity |]. split; [reflexivity |].
    split; [reflexivity |]. split; [exact Hmax' |]. intros j t' Hj. lia.
  - exists i, r, t. split; [exact Hi |]. split; [exact Hti |].
    split; [reflexivity |]. split; [exact Hmax' | exact Hbefore].
Qed.

(** The second board, attached later, is the one selected. *)
Lemma select_most_recent_first_maximum_witness :
  select_most_recent true [0; 1]%nat world_two = (Ok [1%nat], world_two).
Proof.
  destruct (select_most_recent_first_maximum world_two [0; 1]%nat
              [Qc_of_Z 100; Qc_of_Z 200]) as (_ & _ & H).
  destruct H as (i & r & t & Hi & Hti & Hrun & Hmax & _).
  - repeat constructor; eexists; split; reflexivity.
  - discriminate.
  - destruct i as [| [| i]]; simpl in Hi, Hti; try discriminate.
    + exfalso. injection Hti as <-.
      apply (Hmax 1%nat (Qc_of_Z 200) eq_refl). reflexivity.
    + injection Hi as <-. exact Hrun.
Defined.

(** [--most-recent --format path] on the two boards prints the second
    only. *)
Example most_recent_scenario :
  main host0 (with_most_recent (with_format ["path"] " " default_args))
  = (0, printed ("/dev/ttyUSB0" ++ newline) (queried world_two)).
Proof. reflexivity. Qed.

(** On equal timestamps the record seen first is kept. *)
Example select_most_recent_tie :
  select_most_recent true [1; 0; 1]%nat world_two = (Ok [1%nat], world_two)
  /\ select_most_recent true [0; 0]%nat world_two = (Ok [0%nat], world_two).
Proof. split; reflexivity. Qed.

(** ** Table rendering and the store *)

Lemma keeps_heap_bind {A B} (m : M A) (f : A -> M B) :
  keeps_heap m -> (forall a, keeps_heap (f a)) -> keeps_heap (m ≫= f).
Proof.
  intros Hm Hf w. unfold mbind, M_bind. specialize (Hm w).
  destruct (m w) as [[a | e] w1]; simpl in *; [| exact Hm].
  by rewrite Hf.
Qed.

Lemma keeps_heap_ret {A} (a : A) : keeps_heap (mret a).
Proof. intros w. reflexivity. Qed.

Lemma keeps_heap_lift {A} (r : result A) : keeps_heap (lift r).
Proof. intros w. reflexivity. Qed.

Lemma keeps_heap_raise {A} (e : exn) : keeps_heap (raise e : M A).
Proof. intros w. reflexivity. Qed.

Lemma keeps_heap_write (s : string) : keeps_heap (write s).
Proof. intros w. reflexivity. Qed.

Lemma keeps_heap_deref (r : ref) : keeps_heap (deref r).
Proof. intros w. unfold deref. by destruct (heap w !! r). Qed.

Create HintDb heap.

#[local] Hint Resolve keeps_heap_ret keeps_heap_lift keeps_heap_raise
  keeps_heap_write keeps_heap_deref : heap.

Ltac keeps_heap_step :=
  first [ apply keeps_heap_bind; [| intros ?] | solve [auto with heap] ].

Lemma keeps_heap_deref_all (ttys : list ref) : keeps_heap (deref_all ttys).
Proof.
  induction ttys as [| r ttys IH]; simpl; [auto with heap |].
  repeat keeps_heap_step.
Qed.

Lemma keeps_heap_row_cells (P : platform) (d : dict) (headers : list string)
    (lengths : list nat) :
  keeps_heap (row_cells P d headers lengths).
Proof.
  revert lengths. induction headers as [| h hs IH]; intros [| n ns]; simpl;
    auto with heap.
  repeat keeps_heap_step.
Qed.

Lemma keeps_heap_rows (P : platform) (data : list dict)
    (headers : list string) (lengths : list nat) :
  keeps_heap (rows P data headers lengths).
Proof.
  induction data as [| d data IH]; simpl; [auto with heap |].
  destruct headers as [| h0 hs]; [auto with heap |].
  destruct lengths as [| n0 ns]; [auto with heap |].
  repeat keeps_heap_step. apply keeps_heap_row_cells.
Qed.

Lemma keeps_heap_print_table (P : platform) (data : list dict)
    (headers : list string) :
  keeps_heap (print_table P data headers).
Proof.
  unfold print_table. keeps_heap_step; [auto with heap |].
  destruct headers as [| h0 hs]; [auto with heap |].
  destruct a as [| n0 ns]; [auto with heap |].
  repeat keeps_heap_step. apply keeps_heap_rows.
Qed.

Lemma has_ctime_insert_other (h : list dict) (r r' : ref) (d : dict) (t : Qc) :
  r <> r' -> has_ctime h r' t -> has_ctime (<[r := d]> h) r' t.
Proof.
  intros Hne (d' & Hr & Hd). exists d'.
  by rewrite list_lookup_insert_ne.
Qed.

Lemma has_ctime_insert_others (h : list dict) (r : ref) (d : dict)
    (ttys : list ref) (ts : list Qc) :
  r ∉ ttys ->
  Forall2 (has_ctime h) ttys ts ->
  Forall2 (has_ctime (<[r := d]> h)) ttys ts.
Proof.
  intros Hnotin Hall. induction Hall as [| r' t ttys ts Hc Hall IH].
  - constructor.
  - apply not_elem_of_cons in Hnotin as [Hne Hnotin].
    constructor; [by apply has_ctime_insert_other | by apply IH].
Qed.

(** Lines 177-179 on distinct references to records with numeric
    timestamps: every listed record gets its [ctime] replaced by the
    display string; nothing else in the store or the world changes. *)
Lemma stamp_ctime_spec (P : platform) (ttys : list ref) (ts : list Qc) :
  forall w,
    NoDup ttys ->
    Forall2 (has_ctime (heap w)) ttys ts ->
    exists w',
      stamp_ctime P ttys w = (Ok tt, w')
      /\ out w' = out w /\ err w' = err w
      /\ (forall i r t d,
            ttys !! i = Some r -> ts !! i = Some t -> heap w !! r = Some d ->
            heap w' !! r = Some (<["ctime" := VStr (strftime_hms P t)]> d))
      /\ (forall r, r ∉ ttys -> heap w' !! r = heap w !! r).
Proof.
  revert ts. induction ttys as [| r1 ttys IH]; intros ts w Hnd Hall.
  - exists w. simpl. repeat split; auto. intros i r t d Hi. discriminate.
  - inversion Hall as [| ? t1 ? ts' H1 Hrest]; subst.
    pose proof (NoDup_cons_1_1 _ _ Hnd) as Hnotin.
    apply NoDup_cons_1_2 in Hnd.
    destruct H1 as (d1 & Hr1 & Hd1).
    set (d1' := <["ctime" := VStr (strftime_hms P t1)]> d1).
    set (w1 := {| heap := <[r1 := d1']> (heap w); out := out w;
                  err := err w; queries := queries w |}).
    assert (Forall2 (has_ctime (heap w1)) ttys ts') as Hrest1.
    { by apply has_ctime_insert_others. }
    destruct (IH ts' w1 Hnd Hrest1)
      as (w' & Hrun & Hout & Herr & Hin & Hframe).
    exists w'. split; [| split; [exact Hout | split; [exact Herr | split]]].
    + cbn [stamp_ctime]. unfold mbind, M_bind at 1.
      rewrite (getitem_ctime w r1 t1) by (exists d1; auto).
      unfold display_time, lift, mbind, M_bind, setitem.
      rewrite Hr1. exact Hrun.
    + intros [| i] r t d Hi Hti Hr; simpl in Hi, Hti.
      * injection Hi as <-. injection Hti as <-.
        rewrite (Hframe r1 Hnotin). simpl.
        rewrite list_lookup_insert_eq by (eapply lookup_lt_Some; eauto).
        rewrite Hr1 in Hr. injection Hr as <-. reflexivity.
      * apply (Hin i r t d Hi Hti). simpl.
        rewrite list_lookup_insert_ne; [exact Hr |].
        intros ->. apply Hnotin. eapply list_elem_of_lookup_2. exact Hi.
    + intros r Hr. apply not_elem_of_cons in Hr as [Hne Hr].
      rewrite (Hframe r Hr). simpl. by rewrite list_lookup_insert_ne.
Qed.

(** C1, as the code has it.  Printing in table format assigns to the
    records it is given: each listed record keeps all its fields except
    [ctime], which is overwritten with the [HH:MM:SS] string; records that
    are not listed are not touched. *)
Theorem table_rendering_overwrites_ctime (P : platform) (a : args)
    (ttys : list ref) (ts : list Qc) (w : world) :
  format a = ["table"] ->
  NoDup ttys ->
  Forall2 (has_ctime (heap w)) ttys ts ->
  let w' := (print_results P a ttys w).2 in
  (forall i r t d,
      ttys !! i = Some r -> ts !! i = Some t -> heap w !! r = Some d ->
      heap w' !! r = Some (<["ctime" := VStr (strftime_hms P t)]> d))
  /\ (forall r, r ∉ ttys -> heap w' !! r = heap w !! r).
Proof.
  intros Hfmt Hnd Hall.
  destruct (stamp_ctime_spec P ttys ts w Hnd Hall)
    as (w1 & Hrun & _ & _ & Hin & Hframe).
  assert (heap (print_results P a ttys w).2 = heap w1) as Hheap.
  { unfold print_results. rewrite Hfmt. simpl.
    unfold mbind, M_bind at 1. rewrite Hrun.
    apply (keeps_heap_bind (deref_all ttys)
             (fun ds => print_table P ds table_headers)).
    - apply keeps_heap_deref_all.
    - intros ds. apply keeps_heap_print_table. }
  simpl. rewrite Hheap. split; assumption.
Qed.

(** The first board's record, timestamp 100, after the table is printed:
    its [ctime] is the text [00:01:40] and its serial is as before. *)
Lemma table_rendering_overwrites_ctime_witness :
  heap (print_results host0 default_args [0%nat] world_two).2 !! 0%nat
  = <["ctime" := VStr "00:01:40"]> <$> heap world_two !! 0%nat.
Proof.
  destruct (table_rendering_overwrites_ctime host0 default_args [0%nat]
              [Qc_of_Z 100] world_two) as [Hin _].
  - reflexivity.
  - apply NoDup_singleton.
  - repeat constructor. eexists. split; reflexivity.
  - destruct (heap world_two !! 0%nat) as [d |] eqn:Hd.
    + apply (Hin 0%nat 0%nat (Qc_of_Z 100) d); [reflexivity .. | exact Hd].
    + vm_compute in Hd. discriminate Hd.
Defined.

(** C1 as stated fails: after the table is printed, the record's [ctime]
    is no longer the timestamp it was built with. *)
Lemma table_rendering_mutates_record :
  (heap world_two !! 0%nat) ≫= (.!! "ctime") = Some (VNum (Qc_of_Z 100))
  /\ (heap (print_results host0 default_args [0%nat] world_two).2 !! 0%nat)
       ≫= (.!! "ctime")
     = Some (VStr "00:01:40").
Proof. split; reflexivity. Qed.

(** ** The per-field lines *)

Lemma string_app_cons (c : ascii) (s1 s2 : string) :
  String c s1 ++ s2 = String c (s1 ++ s2).
Proof. reflexivity. Qed.

Lemma string_app_nil_l (s : string) : "" ++ s = s.
Proof. reflexivity. Qed.

Lemma string_app_assoc (s1 s2 s3 : string) :
  (s1 ++ s2) ++ s3 = s1 ++ (s2 ++ s3).
Proof.
  induction s1 as [| c s1 IH]; [reflexivity |].
  by rewrite !string_app_cons, IH.
Qed.

Lemma string_app_nil_r (s : string) : s ++ "" = s.
Proof.
  induction s as [| c s IH]; [reflexivity |].
  by rewrite string_app_cons, IH.
Qed.

Lemma drop_chars_app (s1 s2 : string) :
  drop_chars (String.length s1) (s1 ++ s2) = s2.
Proof.
  induction s1 as [| c s1 IH]; [by destruct s2 |].
  rewrite string_app_cons. exact IH.
Qed.

Lemma build_line_strings (P : platform) (sep : string) (d : dict)
    (fmts : list string) :
  fields_are_strings fmts d ->
  forall line,
    build_line P sep fmts d line = Ok (line ++ fields_suffix P sep d fmts).
Proof.
  induction 1 as [| fmt fmts (s & Hs) _ IH]; intros line; simpl.
  - by rewrite string_app_nil_r.
  - unfold item, field_text. unfold_M. rewrite Hs. rewrite IH.
    by rewrite !string_app_assoc.
Qed.

Lemma build_line_ok_inv (P : platform) (sep : string) (d : dict)
    (fmts : list string) :
  forall line l,
    build_line P sep fmts d line = Ok l -> fields_are_strings fmts d.
Proof.
  induction fmts as [| fmt fmts IH]; intros line l Hrun; [constructor |].
  simpl in Hrun. unfold_M.
  destruct (d !! fmt) as [[| s | t] |] eqn:Hf; try discriminate.
  constructor; [by exists s | by eapply IH].
Qed.

Lemma build_line_attribute_error (P : platform) (sep : string) (d : dict)
    (fmts : list string) :
  fields_present fmts d ->
  ~ fields_are_strings fmts d ->
  forall line, build_line P sep fmts d line = Raise AttributeError.
Proof.
  induction 1 as [| fmt fmts [v Hv] _ IH]; intros Hno line.
  - exfalso. apply Hno. constructor.
  - simpl. unfold_M. rewrite Hv. destruct v as [| s | t]; try reflexivity.
    apply IH. intros Hs. apply Hno. constructor; [by exists s | exact Hs].
Qed.

Lemma fields_suffix_join (P : platform) (a : args) (d : dict) :
  drop_chars (String.length (format_sep a))
    (fields_suffix P (format_sep a) d (format a))
  = line_of P a d.
Proof.
  unfold line_of. generalize (format_sep a) as sep.
  intros sep. destruct (format a) as [| fmt fmts]; simpl.
  - by destruct (String.length sep).
  - rewrite drop_chars_app. revert fmt.
    induction fmts as [| g fmts IH]; intros fmt; simpl.
    + apply string_app_nil_r.
    + by rewrite IH.
Qed.

Lemma printed_nil (w : world) : printed "" w = w.
Proof. destruct w. unfold printed. simpl. by rewrite string_app_nil_r. Qed.

Lemma printed_printed (s1 s2 : string) (w : world) :
  printed s2 (printed s1 w) = printed (s1 ++ s2) w.
Proof. unfold printed. simpl. by rewrite string_app_assoc. Qed.

Lemma print_results_fields_mode (P : platform) (a : args) (ttys : list ref) :
  fields_mode (format a) -> print_results P a ttys = print_lines P a ttys.
Proof.
  intros [Hj Ht]. unfold print_results.
  destruct (format a) as [| fmt [| g fmts]]; try reflexivity.
  destruct (String.eqb_spec fmt "json") as [-> | _]; [done |].
  destruct (String.eqb_spec fmt "table") as [-> | _]; [done |].
  reflexivity.
Qed.

(** One line per record when every requested field is a string. *)
Lemma print_lines_strings (P : platform) (a : args) (ttys : list ref)
    (ds : list dict) :
  forall w,
    resolves (heap w) ttys ds ->
    Forall (fields_are_strings (format a)) ds ->
    print_lines P a ttys w = (Ok tt, printed (lines_of P a ds) w).
Proof.
  revert ds. induction ttys as [| r ttys IH]; intros ds w Hres Hall.
  - inversion Hres; subst. simpl. by rewrite printed_nil.
  - inversion Hres as [| ? d ? ds' Hr Hres']; subst.
    inversion Hall as [| ? ? Hd Hall']; subst.
    cbn [print_lines lines_of]. unfold_M. rewrite Hr.
    rewrite (build_line_strings P _ d _ Hd). rewrite string_app_nil_l.
    unfold print, write. rewrite fields_suffix_join.
    erewrite (IH ds'); [| exact Hres' | exact Hall'].
    f_equal. unfold printed. simpl. by rewrite !string_app_assoc.
Qed.

(** The loop stops at the first record with a requested field that is not
    a string: the lines of the records before it are out, none for it. *)
Lemma print_lines_stops (P : platform) (a : args) (good : list dict)
    (bad : dict) (rest : list dict) :
  forall ttys w,
    resolves (heap w) ttys (good ++ bad :: rest) ->
    Forall (fields_are_strings (format a)) good ->
    fields_present (format a) bad ->
    ~ fields_are_strings (format a) bad ->
    print_lines P a ttys w
    = (Raise AttributeError, printed (lines_of P a good) w).
Proof.
  induction good as [| d good IH]; intros ttys w Hres Hgood Hpres Hbad.
  - inversion Hres as [| r ? ttys' ? Hr Hres']; subst.
    cbn [print_lines lines_of]. unfold_M. rewrite Hr.
    rewrite (build_line_attribute_error P _ bad _ Hpres Hbad).
    by rewrite printed_nil.
  - inversion Hres as [| r ? ttys' ? Hr Hres']; subst.
    inversion Hgood as [| ? ? Hd Hgood']; subst.
    cbn [print_lines lines_of]. unfold_M. rewrite Hr.
    rewrite (build_line_strings P _ d _ Hd). rewrite string_app_nil_l.
    unfold print, write. rewrite fields_suffix_join.
    erewrite (IH ttys'); [| exact Hres' | exact Hgood' | exact Hpres | exact Hbad].
    f_equal. unfold printed. simpl. by rewrite !string_app_assoc.
Qed.

Lemma print_lines_ok_inv (P : platform) (a : args) (ttys : list ref)
    (ds : list dict) :
  forall w w',
    resolves (heap w) ttys ds ->
    print_lines P a ttys w = (Ok tt, w') ->
    Forall (fields_are_strings (format a)) ds.
Proof.
  revert ds. induction ttys as [| r ttys IH]; intros ds w w' Hres Hrun.
  - inversion Hres; subst. constructor.
  - inversion Hres as [| ? d ? ds' Hr Hres']; subst.
    cbn [print_lines] in Hrun. unfold_M. rewrite Hr in Hrun.
    destruct (build_line P (format_sep a) (format a) d "") as [l | e] eqn:Hl;
      [| discriminate].
    constructor; [by eapply build_line_ok_inv |].
    unfold print, write in Hrun. by eapply IH; [| exact Hrun].
Qed.

Lemma null_field_not_strings (fmts : list string) (d : dict) (fmt : string) :
  fmt ∈ fmts -> d !! fmt = Some VNone -> ~ fields_are_strings fmts d.
Proof.
  intros Hin Hnull Hs. unfold fields_are_strings in Hs.
  rewrite list.Forall_forall in Hs.
  destruct (Hs fmt Hin) as [s Hstr].
  congruence.
Qed.

(** C10, as the code has it.  In the per-field mode the formatter
    completes only when every requested field of every record is a
    string.  A record with a null requested field makes it raise; when
    that record is the first with a field that is not a string, the
    exception is [AttributeError], the lines of the records before it
    are already printed, and no line, so no text [None], is printed for
    the record itself.  The table instead writes the text [None] for a
    null field. *)
Theorem fields_mode_requires_strings (P : platform) (a : args)
    (ttys : list ref) (ds : list dict) (w : world) :
  fields_mode (format a) ->
  resolves (heap w) ttys ds ->
  ((exists w', print_results P a ttys w = (Ok tt, w'))
   <-> Forall (fields_are_strings (format a)) ds)
  /\ (forall d fmt,
        d ∈ ds -> fmt ∈ format a -> d !! fmt = Some VNone ->
        exists e w', print_results P a ttys w = (Raise e, w'))
  /\ (forall good bad rest,
        ds = (good ++ bad :: rest)%list ->
        Forall (fields_are_strings (format a)) good ->
        fields_present (format a) bad ->
        ~ fields_are_strings (format a) bad ->
        print_results P a ttys w
        = (Raise AttributeError, printed (lines_of P a good) w))
  /\ (forall d header n w0,
        d !! header = Some VNone ->
        row_cells P d [header] [n] w0
        = (Ok tt, printed (" | " ++ pad "None" n) w0)).
Proof.
  intros Hmode Hres. rewrite (print_results_fields_mode P a ttys Hmode).
  split; [| split; [| split]].
  - split.
    + intros [w' Hrun]. by eapply print_lines_ok_inv.
    + intros Hall. eexists. by apply print_lines_strings.
  - intros d fmt Hd Hfmt Hnull.
    destruct (print_lines P a ttys w) as [[[] | e] w'] eqn:Hrun; [| eauto].
    exfalso. pose proof (print_lines_ok_inv P a ttys ds w w' Hres Hrun) as Hs.
    rewrite list.Forall_forall in Hs.
    by apply (null_field_not_strings (format a) d fmt Hfmt Hnull), Hs.
  - intros good bad rest -> Hgood Hpres Hbad.
    by apply (print_lines_stops P a good bad rest).
  - intros d header n w0 Hnull. simpl. unfold_M. by rewrite Hnull.
Qed.

(** [--format path serial --format-sep ,] on the two boards: the line of
    the first is printed, the second has no serial and the formatter
    raises. *)
Lemma fields_mode_requires_strings_witness :
  print_results host0 (with_format ["path"; "serial"] "," default_args)
    [0; 1]%nat world_two
  = (Raise AttributeError, printed ("/dev/ttyACM0,XYZ" ++ newline) world_two).
Proof.
  destruct (fields_mode_requires_strings host0
              (with_format ["path"; "serial"] "," default_args)
              [0; 1]%nat [tty_acm0; tty_usb0] world_two)
    as (_ & _ & Hstop & _).
  - split; discriminate.
  - repeat constructor.
  - apply (Hstop [tty_acm0] tty_usb0 []).
    + reflexivity.
    + repeat constructor; eexists; reflexivity.
    + repeat constructor; eexists; reflexivity.
    + apply (null_field_not_strings _ _ "serial"); [| reflexivity].
      apply list_elem_of_further, list_elem_of_here.
Defined.

(** C10 as stated fails: with [--format serial] on the two boards, the
    second record's serial is null, and yet output is produced, the line
    of the first record. *)
Lemma fields_mode_partial_output :
  tty_usb0 !! "serial" = Some VNone
  /\ out world_two = ""
  /\ print_results host0 (with_format ["serial"] " " default_args)
       [0; 1]%nat world_two
     = (Raise AttributeError, printed ("XYZ" ++ newline) world_two)
  /\ out (printed ("XYZ" ++ newline) world_two) = "XYZ" ++ newline.
Proof. repeat split; reflexivity. Qed.

(** A numeric [ctime] among the requested fields: no line is built. *)
Lemma ctime_field_builds_no_line (P : platform) (sep : string)
    (fmts : list string) (d : dict) (t : Qc) (line l : string) :
  "ctime" ∈ fmts -> d !! "ctime" = Some (VNum t) ->
  build_line P sep fmts d line <> Ok l.
Proof.
  intros Hin Hc Hrun. apply build_line_ok_inv in Hrun.
  unfold fields_are_strings in Hrun. rewrite list.Forall_forall in Hrun.
  destruct (Hrun "ctime" Hin) as [s Hs]. congruence.
Qed.

(** The scenarios of the specification that the code meets:
    [--format path serial --format-sep ,] prints the two values joined by
    the comma; a vendor that contains the separator is quoted, the path
    next to it is not. *)
Example format_path_serial :
  print_results host0 (with_format ["path"; "serial"] "," default_args)
    [0%nat] world_two
  = (Ok tt, printed ("/dev/ttyACM0,XYZ" ++ newline) world_two).
Proof. reflexivity. Qed.

Example format_vendor_quoted :
  print_results host0 (with_format ["path"; "vendor"] " " default_args)
    [1%nat] world_two
  = (Ok tt,
     printed ("/dev/ttyUSB0 " ++ dquote ++ "Silicon Labs" ++ dquote
              ++ newline) world_two).
Proof. reflexivity. Qed.

(** C3, at the input where the code departs from it.  [--format ctime] is
    accepted by the validation of [parse_args], and the record's [ctime]
    is the number 100; the formatter raises [AttributeError] and prints
    no line, instead of the raw timestamp. *)
Theorem format_ctime_raises :
  check_formats ["ctime"] = Ok tt
  /\ tty_acm0 !! "ctime" = Some (VNum (Qc_of_Z 100))
  /\ print_results host0 (with_format ["ctime"] " " default_args)
       [0%nat] world_two
     = (Raise AttributeError, world_two)
  /\ print_results host0 (with_format ["path"; "ctime"] " " default_args)
       [0%nat] world_two
     = (Raise AttributeError, world_two).
Proof. repeat split; reflexivity. Qed.

(** ** Exit status *)

(** C5, at the input where the code departs from it.  With
    [--format ctime] both boards remain after filtering, yet nothing is
    printed and the exit status is 1, with a traceback; with
    [--format serial] the first board's serial is printed and the run
    ends the same way on the second board, which has none. *)
Theorem nonempty_result_exits_1 :
  main host0 (with_format ["ctime"] " " default_args)
  = (1, {| heap := heap world_two; out := "";
           err := [ErrTraceback AttributeError]; queries := 1%nat |})
  /\ main host0 (with_format ["serial"] " " default_args)
     = (1, {| heap := heap world_two; out := "XYZ" ++ newline;
              err := [ErrTraceback AttributeError]; queries := 1%nat |}).
Proof. split; reflexivity. Qed.


(** What is left of C5: the run that ends with no record.  Reading the
    devices, filtering and selecting print nothing, so when the selected
    list is empty the exit status is 1 and both output streams are
    empty. *)

Lemma keeps_out_bind {A B} (m : M A) (f : A -> M B) :
  keeps_out m -> (forall a, keeps_out (f a)) -> keeps_out (m ≫= f).
Proof.
  intros Hm Hf w. unfold mbind, M_bind. specialize (Hm w).
  destruct (m w) as [[a | e] w1]; simpl in *; [| exact Hm].
  destruct (Hf a w1) as [Ho He]. destruct Hm as [Ho1 He1].
  split; congruence.
Qed.

Lemma keeps_out_ret {A} (a : A) : keeps_out (mret a).
Proof. intros w. split; reflexivity. Qed.

Lemma keeps_out_lift {A} (r : result A) : keeps_out (lift r).
Proof. intros w. split; reflexivity. Qed.

Lemma keeps_out_alloc (d : dict) : keeps_out (alloc d).
Proof. intros w. split; reflexivity. Qed.

Lemma keeps_out_deref (r : ref) : keeps_out (deref r).
Proof. intros w. unfold deref. by destruct (heap w !! r). Qed.

Create HintDb quiet.

#[local] Hint Resolve keeps_out_ret keeps_out_lift keeps_out_alloc
  keeps_out_deref : quiet.

Ltac keeps_out_step :=
  first [ apply keeps_out_bind; [| intros ?] | solve [auto with quiet] ].

Lemma keeps_out_getitem (r : ref) (key : string) : keeps_out (getitem r key).
Proof. unfold getitem. repeat keeps_out_step. Qed.

Lemma keeps_out_tty2dict (P : platform) (dev : device) :
  keeps_out (tty2dict P dev).
Proof. unfold tty2dict. repeat keeps_out_step. Qed.

Lemma keeps_out_collect (P : platform) (excluded : option (list string))
    (fs : list (string * regex)) (devs : list device) :
  forall ttys, keeps_out (collect P excluded fs devs ttys).
Proof.
  induction devs as [| dev devs IH]; intros ttys; simpl; [auto with quiet |].
  apply keeps_out_bind; [apply keeps_out_tty2dict | intros tty].
  apply keeps_out_bind; [apply keeps_out_getitem | intros s].
  apply keeps_out_bind; [apply keeps_out_lift | intros [|]]; [| apply IH].
  apply keeps_out_bind; [apply keeps_out_deref | intros d].
  apply keeps_out_bind; [apply keeps_out_lift | intros [|]]; apply IH.
Qed.

Lemma keeps_out_scan_most_recent (ttys : list ref) :
  forall best, keeps_out (scan_most_recent ttys best).
Proof.
  induction ttys as [| tty ttys IH]; intros best; simpl; [auto with quiet |].
  apply keeps_out_bind; [apply keeps_out_getitem | intros x].
  apply keeps_out_bind; [apply keeps_out_getitem | intros y].
  repeat keeps_out_step; try apply IH.
Qed.

Lemma keeps_out_select_most_recent (flag : bool) (ttys : list ref) :
  keeps_out (select_most_recent flag ttys).
Proof.
  unfold select_most_recent. destruct flag; [| auto with quiet].
  destruct ttys as [| first ttys]; [auto with quiet |].
  apply keeps_out_bind; [apply keeps_out_scan_most_recent | intros r].
  auto with quiet.
Qed.

Lemma no_match_is_silent (P : platform) (argv a : args)
    (fs : list (string * regex)) (ttys : list ref) (w1 w2 : world) :
  parse_args P argv = Ok a ->
  generate_filters P a = Ok fs ->
  collect P (exclude_serial a) fs (list_devices P) [] (queried world0)
  = (Ok ttys, w1) ->
  select_most_recent (most_recent a) ttys w1 = (Ok [], w2) ->
  main P argv = (1, w2) /\ out w2 = "" /\ err w2 = [].
Proof.
  intros Hargs Hfs Hcollect Hselect. split.
  - unfold main, print_ttys, query_devices. unfold_M.
    rewrite Hargs, Hfs. fold (queried world0).
    rewrite Hcollect, Hselect. reflexivity.
  - pose proof (keeps_out_collect P (exclude_serial a) fs (list_devices P)
                  [] (queried world0)) as Hc.
    pose proof (keeps_out_select_most_recent (most_recent a) ttys w1) as Hs.
    rewrite Hcollect in Hc. rewrite Hselect in Hs. simpl in Hc, Hs.
    destruct Hc as [Hco Hce], Hs as [Hso Hse]. split; congruence.
Qed.

(** No device attached; and one device whose serial is excluded. *)
Example no_match_host_empty :
  main host_empty default_args
  = (1, {| heap := []; out := ""; err := []; queries := 1%nat |}).
Proof. reflexivity. Qed.

Example exclude_serial_scenario :
  (main host0 (with_exclude (Some ["XYZ"]) (with_format ["path"] " "
                                              default_args))).1 = 0
  /\ out (main host0 (with_exclude (Some ["XYZ"]) (with_format ["path"] " "
                                                    default_args))).2
     = "/dev/ttyUSB0" ++ newline.
Proof. split; reflexivity. Qed.


(** ** The table and JSON modes end with status 0 *)

Lemma widen_ready (P : platform) (d : dict) (headers : list string) :
  cells_ready headers d ->
  forall lengths,
    Forall (le 4) lengths ->
    exists lengths',
      widen P d headers lengths = Ok lengths'
      /\ Forall (le 4) lengths'
      /\ length lengths' = length lengths.
Proof.
  induction 1 as [| h hs (v & Hv & Hp) _ IH]; intros lengths Hlen.
  - exists lengths. by destruct lengths.
  - destruct lengths as [| n ns]; [by exists [] |].
    inversion Hlen as [| ? ? Hn Hns]; subst.
    destruct (IH ns Hns) as (ns' & Hrun & Hns' & Hl).
    cbn [widen]. unfold_M. rewrite Hv, Hrun.
    destruct Hp as [-> | [s ->]]; simpl.
    + assert ((n <? 4)%nat = false) as -> by (apply Nat.ltb_ge; lia).
      exists (n :: ns'). repeat split; [by constructor | simpl; lia].
    + destruct (n <? String.length s)%nat eqn:Hlt; simpl.
      * apply Nat.ltb_lt in Hlt. exists (String.length s :: ns').
        repeat split; [constructor; [lia | done] | simpl; lia].
      * exists (n :: ns'). repeat split; [by constructor | simpl; lia].
Qed.

Lemma widen_all_ready (P : platform) (data : list dict)
    (headers : list string) :
  Forall (cells_ready headers) data ->
  forall lengths,
    Forall (le 4) lengths ->
    exists lengths',
      widen_all P data headers lengths = Ok lengths'
      /\ length lengths' = length lengths.
Proof.
  induction 1 as [| d data Hd _ IH]; intros lengths Hlen.
  - by exists lengths.
  - destruct (widen_ready P d headers Hd lengths Hlen)
      as (l1 & Hrun & Hl1 & Hlen1).
    destruct (IH l1 Hl1) as (l2 & Hrun2 & Hlen2).
    exists l2. cbn [widen_all]. unfold_M. rewrite Hrun.
    split; [exact Hrun2 | congruence].
Qed.

Lemma row_cells_ready (P : platform) (d : dict) (headers : list string) :
  cells_ready headers d ->
  forall lengths w,
    exists w', row_cells P d headers lengths w = (Ok tt, w')
               /\ err w' = err w.
Proof.
  induction 1 as [| h hs (v & Hv & _) _ IH]; intros lengths w.
  - exists w. by destruct lengths.
  - destruct lengths as [| n ns]; [by exists w |].
    cbn [row_cells]. unfold_M. rewrite Hv. unfold write.
    match goal with
    | |- context [row_cells P d hs ns ?w1] =>
        destruct (IH ns w1) as (w' & Hrun & Herr)
    end.
    exists w'. split; [exact Hrun | exact Herr].
Qed.

Lemma rows_ready (P : platform) (data : list dict) (h0 : string)
    (hs : list string) (n0 : nat) (ns : list nat) :
  Forall (cells_ready (h0 :: hs)) data ->
  forall w,
    exists w', rows P data (h0 :: hs) (n0 :: ns) w = (Ok tt, w')
               /\ err w' = err w.
Proof.
  induction 1 as [| d data Hd _ IH]; intros w; [by exists w |].
  inversion Hd as [| ? ? (v & Hv & _) Hrest]; subst.
  cbn [rows]. unfold_M. rewrite Hv. unfold write.
  match goal with
  | |- context [row_cells P d hs ns ?w1] =>
      destruct (row_cells_ready P d hs Hrest ns w1) as (w2 & -> & He2)
  end.
  destruct (IH w2) as (w3 & Hrun & He3).
  exists w3. split; [exact Hrun |]. rewrite He3, He2. reflexivity.
Qed.

Lemma print_table_ready (P : platform) (data : list dict) (w : world) :
  Forall (cells_ready table_headers) data ->
  exists w', print_table P data table_headers w = (Ok tt, w')
             /\ err w' = err w.
Proof.
  intros Hdata.
  destruct (widen_all_ready P data table_headers Hdata
              (String.length <$> table_headers))
    as (lengths & Hrun & Hlen).
  { simpl. repeat constructor. }
  unfold print_table. unfold mbind, M_bind at 1. unfold lift. rewrite Hrun.
  destruct lengths as [| n0 ns]; [discriminate Hlen |].
  unfold table_headers at 1. cbv iota. unfold_M. unfold write.
  match goal with
  | |- context [rows P data table_headers (n0 :: ns) ?w1] =>
      destruct (rows_ready P data "path" (tail table_headers) n0 ns Hdata w1)
        as (w2 & Hrows & He2)
  end.
  change ("path" :: tail table_headers) with table_headers in Hrows.
  rewrite Hrows. eexists. split; [reflexivity |]. simpl. exact He2.
Qed.

Lemma printable_of_get (o : option string) : printable (of_get o).
Proof. destruct o as [s |]; [right; by exists s | by left]. Qed.

Lemma printable_str (s : string) : printable (VStr s).
Proof. right. by exists s. Qed.

(** A record that [tty2dict] returns is a fresh reference to a record of
    the expected shape; nothing is printed. *)
Lemma tty2dict_extracted (P : platform) (dev : device) (w w' : world)
    (r : ref) :
  tty2dict P dev w = (Ok r, w') ->
  r = length (heap w)
  /\ exists d,
       extracted d
       /\ w' = {| heap := heap w ++ [d]; out := out w; err := err w;
                  queries := queries w |}.
Proof.
  unfold tty2dict, os_stat_ctime, unescape, py_int. unfold_M.
  destruct (dev !! "DEVNAME") as [p |]; [| discriminate].
  destruct (stat_ctime P p) as [t |]; [| discriminate].
  destruct (dev !! "ID_MODEL_ENC") as [m |]; [| discriminate].
  destruct (decode_escapes P m) as [m' |]; [| discriminate].
  destruct (dev !! "ID_VENDOR_ENC") as [v |]; [| discriminate].
  destruct (decode_escapes P v) as [v' |]; [| discriminate].
  destruct (dev !! "ID_USB_INTERFACE_NUM") as [i |]; [| discriminate].
  destruct (int_of_str P i) as [n |]; [| discriminate].
  unfold alloc. intros Hrun. injection Hrun as <- <-.
  split; [reflexivity |]. eexists. split; [| reflexivity].
  split; [exists t; by simplify_map_eq |].
  repeat constructor; eexists;
    (split; [by simplify_map_eq |
             first [apply printable_of_get | apply printable_str]]).
Qed.

Lemma collected_app (h : list dict) (d : dict) (ttys : list ref) :
  collected h ttys -> collected (h ++ [d]) ttys.
Proof.
  intros [Hnd Hall]. split; [exact Hnd |].
  eapply list.Forall_impl; [exact Hall |]. simpl.
  intros r (d' & Hr & Hd'). exists d'. split; [| exact Hd'].
  by apply lookup_app_l_Some.
Qed.

Lemma collected_snoc (h : list dict) (d : dict) (ttys : list ref) :
  collected h ttys -> extracted d ->
  collected (h ++ [d]) (ttys ++ [length h]).
Proof.
  intros Hc Hd. pose proof (collected_app h d ttys Hc) as [Hnd Hall].
  destruct Hc as [_ Hold]. split.
  - apply list.NoDup_app. split; [exact Hnd |].
    split; [| apply NoDup_singleton].
    intros r Hin Hr. apply list_elem_of_singleton in Hr as ->.
    rewrite list.Forall_forall in Hold.
    destruct (Hold _ Hin) as (d' & Hlook & _).
    apply lookup_lt_Some in Hlook. lia.
  - apply list.Forall_app. split; [exact Hall |].
    constructor; [| constructor].
    exists d. split; [| exact Hd].
    by rewrite lookup_app_r, Nat.sub_diag.
Qed.

Lemma getitem_same_world (r : ref) (key : string) (w w' : world) (v : value) :
  getitem r key w = (Ok v, w') -> w' = w.
Proof.
  unfold_M. destruct (heap w !! r) as [d |]; [| discriminate].
  destruct (d !! key); [| discriminate]. by intros [= _ <-].
Qed.

Lemma collect_collected (P : platform) (excluded : option (list string))
    (fs : list (string * regex)) (devs : list device) :
  forall ttys w ttys' w',
    collected (heap w) ttys ->
    collect P excluded fs devs ttys w = (Ok ttys', w') ->
    collected (heap w') ttys'.
Proof.
  induction devs as [| dev devs IH]; intros ttys w ttys' w' Hc Hrun.
  - simpl in Hrun. injection Hrun as <- <-. exact Hc.
  - cbn [collect] in Hrun. unfold mbind, M_bind at 1 in Hrun.
    destruct (tty2dict P dev w) as [[r | e] w1] eqn:Hdict; [| discriminate].
    apply tty2dict_extracted in Hdict as (-> & d & Hd & ->).
    unfold mbind, M_bind at 1 in Hrun.
    match type of Hrun with
    | context [getitem ?r ?k ?w1] =>
        destruct (getitem r k w1) as [[s | e] w2] eqn:Hget; [| discriminate];
        apply getitem_same_world in Hget as ->
    end.
    unfold mbind, M_bind at 1 in Hrun. unfold lift at 1 in Hrun.
    destruct (py_not_in s excluded) as [[|] | e]; [| | discriminate].
    + unfold_M. simpl in Hrun.
      rewrite lookup_app_r, Nat.sub_diag in Hrun by lia. simpl in Hrun.
      destruct (filters_match fs d) as [[|] | e]; [| | discriminate].
      * eapply IH; [| exact Hrun]. by apply collected_snoc.
      * eapply IH; [| exact Hrun]. by apply collected_app.
    + eapply IH; [| exact Hrun]. by apply collected_app.
Qed.

Lemma scan_most_recent_member (ttys : list ref) :
  forall best w r w',
    scan_most_recent ttys best w = (Ok r, w') ->
    w' = w /\ (r = best \/ r ∈ ttys).
Proof.
  induction ttys as [| tty ttys IH]; intros best w r w' Hrun.
  - simpl in Hrun. injection Hrun as <- <-. auto.
  - cbn [scan_most_recent] in Hrun. unfold mbind, M_bind at 1 in Hrun.
    destruct (getitem tty "ctime" w) as [[x | e] w1] eqn:Hx; [| discriminate].
    apply getitem_same_world in Hx as ->.
    unfold mbind, M_bind at 1 in Hrun.
    destruct (getitem best "ctime" w) as [[y | e] w1] eqn:Hy; [| discriminate].
    apply getitem_same_world in Hy as ->.
    unfold mbind, M_bind, lift in Hrun.
    destruct (py_gt x y) as [newer | e]; [| discriminate].
    apply IH in Hrun as [-> Hr]. split; [reflexivity |].
    destruct Hr as [-> | Hr].
    + destruct newer; [right; apply list_elem_of_here | by left].
    + right. by apply list_elem_of_further.
Qed.

Lemma select_most_recent_collected (flag : bool) (ttys ttys' : list ref)
    (w w' : world) :
  collected (heap w) ttys ->
  select_most_recent flag ttys w = (Ok ttys', w') ->
  w' = w /\ collected (heap w) ttys'.
Proof.
  intros Hc Hrun. unfold select_most_recent in Hrun.
  destruct flag; [| injection Hrun as <- <-; auto].
  destruct ttys as [| first ttys]; [injection Hrun as <- <-; auto |].
  unfold mbind, M_bind in Hrun.
  destruct (scan_most_recent (first :: ttys) first w) as [[r | e] w1] eqn:Hs;
    [| discriminate].
  apply scan_most_recent_member in Hs as [-> Hr].
  injection Hrun as <- <-. split; [reflexivity |].
  assert (r ∈ first :: ttys) as Hin.
  { destruct Hr as [-> | Hr]; [apply list_elem_of_here | exact Hr]. }
  destruct Hc as [_ Hall]. rewrite list.Forall_forall in Hall.
  split; [apply NoDup_singleton |]. constructor; [by apply Hall | constructor].
Qed.

Lemma deref_all_Forall (Q : dict -> Prop) (ttys : list ref) (w : world) :
  (forall r, r ∈ ttys -> exists d, heap w !! r = Some d /\ Q d) ->
  exists ds, deref_all ttys w = (Ok ds, w) /\ Forall Q ds.
Proof.
  induction ttys as [| r ttys IH]; intros Hall.
  - exists []. split; [reflexivity | constructor].
  - destruct (Hall r (list_elem_of_here _ _)) as (d & Hr & Hd).
    destruct IH as (ds & Hrun & Hds).
    { intros r' Hin. apply Hall. by apply list_elem_of_further. }
    exists (d :: ds). cbn [deref_all]. unfold_M. rewrite Hr, Hrun.
    split; [reflexivity | by constructor].
Qed.

Lemma collected_ctimes (h : list dict) (ttys : list ref) :
  collected h ttys -> exists ts, Forall2 (has_ctime h) ttys ts.
Proof.
  intros [_ Hall]. induction Hall as [| r ttys (d & Hr & [t Ht] & _) _ IH].
  - exists []. constructor.
  - destruct IH as [ts Hts]. exists (t :: ts).
    constructor; [by exists d | exact Hts].
Qed.

Lemma stamped_cells_ready (d : dict) (s : string) :
  extracted d -> cells_ready table_headers (<["ctime" := VStr s]> d).
Proof.
  intros [_ Hcells]. unfold cells_ready in *.
  rewrite list.Forall_forall in Hcells. unfold table_headers.
  repeat constructor;
    solve [ exists (VStr s); split;
              [by rewrite lookup_insert_eq | apply printable_str]
          | rewrite lookup_insert_ne by discriminate;
            apply Hcells; repeat first [ apply list_elem_of_here
                                       | apply list_elem_of_further ] ].
Qed.

(** Printing the table succeeds on records collected by the script. *)
Lemma print_results_table_ready (P : platform) (a : args) (ttys : list ref)
    (w : world) :
  format a = ["table"] ->
  collected (heap w) ttys ->
  exists w', print_results P a ttys w = (Ok tt, w') /\ err w' = err w.
Proof.
  intros Hfmt Hc. destruct (collected_ctimes _ _ Hc) as [ts Hts].
  pose proof Hc as [Hnd Hall].
  destruct (stamp_ctime_spec P ttys ts w Hnd Hts)
    as (w1 & Hstamp & _ & Herr1 & Hin & _).
  destruct (deref_all_Forall (cells_ready table_headers) ttys w1)
    as (ds & Hderef & Hds).
  { intros r Hr. apply list_elem_of_lookup_1 in Hr as [i Hi].
    destruct (Forall2_lookup_l _ _ _ _ _ Hts Hi) as (t & Hti & _).
    rewrite list.Forall_forall in Hall.
    destruct (Hall r) as (d & Hd & Hex);
      [eapply list_elem_of_lookup_2; exact Hi |].
    eexists. split; [exact (Hin i r t d Hi Hti Hd) |].
    by apply stamped_cells_ready. }
  destruct (print_table_ready P ds w1 Hds) as (w2 & Htable & Herr2).
  exists w2. split; [| congruence].
  unfold print_results. rewrite Hfmt. simpl. unfold mbind, M_bind.
  rewrite Hstamp, Hderef. exact Htable.
Qed.

(** Printing JSON succeeds on records collected by the script. *)
Lemma print_results_json_ready (P : platform) (a : args) (ttys : list ref)
    (w : world) :
  format a = ["json"] ->
  collected (heap w) ttys ->
  exists w', print_results P a ttys w = (Ok tt, w') /\ err w' = err w.
Proof.
  intros Hfmt [_ Hall].
  destruct (deref_all_Forall (fun _ => True) ttys w) as (ds & Hderef & _).
  { intros r Hr. rewrite list.Forall_forall in Hall.
    destruct (Hall r Hr) as (d & Hd & _). eauto. }
  unfold print_results. rewrite Hfmt. simpl. unfold mbind, M_bind.
  rewrite Hderef. eexists. split; reflexivity.
Qed.

(** The half of C5 that the table and JSON modes meet: whenever the
    selected list is not empty, the run prints and ends with status 0 and
    nothing on standard error. *)
Lemma table_or_json_exits_0 (P : platform) (argv a : args)
    (fs : list (string * regex)) (ttys : list ref) (r : ref)
    (rest : list ref) (w1 w2 : world) :
  parse_args P argv = Ok a ->
  format a = ["table"] \/ format a = ["json"] ->
  generate_filters P a = Ok fs ->
  collect P (exclude_serial a) fs (list_devices P) [] (queried world0)
  = (Ok ttys, w1) ->
  select_most_recent (most_recent a) ttys w1 = (Ok (r :: rest), w2) ->
  exists w3, main P argv = (0, w3) /\ err w3 = [].
Proof.
  intros Hargs Hfmt Hfs Hcollect Hselect.
  assert (collected (heap w1) ttys) as Hc1.
  { eapply collect_collected; [| exact Hcollect]. split; constructor. }
  pose proof (keeps_out_collect P (exclude_serial a) fs (list_devices P) []
                (queried world0)) as [_ He1].
  rewrite Hcollect in He1. simpl in He1.
  destruct (select_most_recent_collected _ _ _ _ _ Hc1 Hselect) as [-> Hc2].
  assert (exists w3, print_results P a (r :: rest) w1 = (Ok tt, w3)
                     /\ err w3 = err w1) as (w3 & Hprint & He3).
  { destruct Hfmt as [Hfmt | Hfmt];
      [by apply print_results_table_ready
      | by apply print_results_json_ready]. }
  exists w3. split; [| congruence].
  unfold main, print_ttys, query_devices. unfold_M.
  rewrite Hargs, Hfs. fold (queried world0).
  rewrite Hcollect, Hselect, Hprint. reflexivity.
Qed.

(** * Further properties of the script *)

(** ** Validation of the format list *)

Lemma check_combinable_ok_iff (fmts : list string) :
  check_combinable fmts = Ok tt <-> Forall (.∈ formats_combinable) fmts.
Proof.
  induction fmts as [| fmt fmts IH]; simpl.
  - split; [constructor | reflexivity].
  - case_bool_decide as Hf.
    + rewrite IH. split; [by constructor | by inversion 1].
    + split; [case_bool_decide; discriminate | by inversion 1].
Qed.

(** X1.  The format list passes the validation of [parse_args] exactly
    when it is a single supported format (combinable, [table] or [json]),
    or a list of another length all of whose formats are combinable. *)
Theorem check_formats_accepts_iff (fmts : list string) :
  check_formats fmts = Ok tt
  <-> (exists fmt, fmts = [fmt] /\ fmt ∈ supported_formats)
      \/ (length fmts <> 1%nat /\ Forall (.∈ formats_combinable) fmts).
Proof.
  destruct fmts as [| f [| g fmts]].
  - simpl. split; [intros _; right; split; [lia | constructor] | done].
  - simpl. case_bool_decide as Hf; split.
    + intros _. left. by exists f.
    + done.
    + discriminate.
    + intros [(fmt & [= <-] & Hin) | [Hlen _]]; [done | simpl in Hlen; lia].
  - unfold check_formats. rewrite check_combinable_ok_iff. split.
    + intros H. right. split; [simpl; lia | exact H].
    + intros [(fmt & Heq & _) | [_ H]]; [discriminate | exact H].
Qed.

(** X2.  When the list has not exactly one format, the message is about
    the first format that is not combinable: [table] and [json] cannot be
    combined, any other name is not supported.  Formats after it are not
    looked at. *)
Theorem check_formats_first_offender (good : list string) (bad : string)
    (rest : list string) :
  length (good ++ bad :: rest) <> 1%nat ->
  Forall (.∈ formats_combinable) good ->
  bad ∉ formats_combinable ->
  check_formats (good ++ bad :: rest)
  = Raise (if bool_decide (bad ∈ formats_uncombinable)
           then not_combinable bad else not_supported bad).
Proof.
  intros Hlen Hgood Hbad.
  assert (check_formats (good ++ bad :: rest)
          = check_combinable (good ++ bad :: rest)) as ->.
  { destruct good as [| f [| g good]]; try reflexivity;
      destruct rest; try reflexivity; simpl in Hlen; lia. }
  clear Hlen. induction Hgood as [| f good Hf _ IH]; simpl.
  - rewrite bool_decide_eq_false_2 by exact Hbad.
    by case_bool_decide.
  - rewrite bool_decide_eq_true_2 by exact Hf. exact IH.
Qed.

(** [--format path bogus table]: the complaint is about [bogus]. *)
Lemma check_formats_first_offender_witness :
  check_formats ["path"; "bogus"; "table"] = Raise (not_supported "bogus").
Proof.
  apply (check_formats_first_offender ["path"] "bogus" ["table"]).
  - simpl. lia.
  - constructor; [| constructor].
    apply (bool_decide_eq_true_1 _). reflexivity.
  - apply (bool_decide_eq_false_1 _). reflexivity.
Defined.

(** X3.  [parse_args] changes nothing in the namespace but
    [exclude_serial], which it always leaves as a list; run on its own
    result it returns that result. *)
Theorem parse_args_settles_exclusion (P : platform) (a a' : args) :
  parse_args P a = Ok a' ->
  a' = with_exclude (Some (exclusion_list P a)) a
  /\ parse_args P a' = Ok a'.
Proof.
  unfold parse_args, exclusion_list. unfold_M.
  destruct (check_formats (format a)) as [[] | e] eqn:Hfmt; [| discriminate].
  destruct a as [mr fmt sep s d m md v vd i ex]. simpl in *.
  destruct ex as [l |].
  - intros [= <-]. simpl. rewrite Hfmt. by split.
  - destruct (environ P !! "EXCLUDE_TTY_SERIAL");
      intros [= <-]; simpl; rewrite Hfmt; by split.
Qed.

Lemma parse_args_settles_exclusion_witness :
  with_exclude (Some ["AAA"; "BBB"]) default_args
  = with_exclude (Some (exclusion_list host_env default_args)) default_args
  /\ parse_args host_env (with_exclude (Some ["AAA"; "BBB"]) default_args)
     = Ok (with_exclude (Some ["AAA"; "BBB"]) default_args).
Proof.
  apply (parse_args_settles_exclusion host_env default_args). reflexivity.
Defined.

(** ** The filters that are generated *)

Lemma append_filter_keys (P : platform) (key : string) (opt : option string)
    (pattern : string -> string) (acc acc' : list (string * regex)) :
  append_filter P key opt pattern acc = Ok acc' ->
  acc'.*1 = (acc.*1 ++ supplied key opt)%list.
Proof.
  unfold append_filter. unfold_M. destruct opt as [v |]; simpl.
  - destruct (re_compile P (pattern v)); [| discriminate].
    intros [= <-]. by rewrite fmap_app.
  - intros [= <-]. by rewrite app_nil_r.
Qed.

Ltac next_filter H :=
  match type of H with
  | context [append_filter ?P ?k ?o ?f ?acc] =>
      let E := fresh "E" in
      destruct (append_filter P k o f acc) as [? | ?] eqn:E;
      [apply append_filter_keys in E | discriminate H]
  end.

Lemma generate_filters_fields (P : platform) (a : args)
    (fs : list (string * regex)) :
  generate_filters P a = Ok fs -> fs.*1 = supplied_keys a.
Proof.
  unfold generate_filters, supplied_keys. intros H.
  unfold mbind, result_bind in H.
  do 6 next_filter H. apply append_filter_keys in H.
  simpl in *. rewrite H. repeat match goal with E : _ = _ |- _ =>
    rewrite E; clear E end.
  by rewrite <- !app_assoc.
Qed.

(** X4.  The filters come out in the fixed order serial, driver, model,
    model_db, vendor, vendor_db, iface_num, one for each option that is
    given and none for the others. *)
Theorem generate_filters_keys (P : platform) (a : args)
    (fs : list (string * regex)) :
  generate_filters P a = Ok fs -> fs.*1 = supplied_keys a.
Proof. apply generate_filters_fields. Qed.

(** [--serial XYZ --model nRF]: a filter on [serial], then one on
    [model]. *)
Lemma generate_filters_keys_witness :
  [("serial", Atoms (serial_atoms "XYZ"));
   ("model", Atoms [Lit "n"; Lit "R"; Lit "F"])].*1
  = ["serial"; "model"].
Proof.
  apply (generate_filters_keys host0
           {| most_recent := false; format := ["table"]; format_sep := " ";
              serial := Some "XYZ"; driver := None; model := Some "nRF";
              model_db := None; vendor := None; vendor_db := None;
              iface_num := None; exclude_serial := None |}).
  reflexivity.
Defined.

Lemma append_filter_ok_iff (P : platform) (key : string)
    (opt : option string) (acc : list (string * regex)) :
  (exists acc', append_filter P key opt id acc = Ok acc') <-> compiles P opt.
Proof.
  unfold append_filter, compiles. unfold_M. destruct opt as [v |].
  - unfold id. destruct (re_compile P v) as [r | e] eqn:Hr; split.
    + intros _ p [= <-]. eauto.
    + eauto.
    + intros [acc' H]. discriminate.
    + intros H. destruct (H v eq_refl) as [r Hr']. congruence.
  - split; [intros _ p; discriminate | eauto].
Qed.

Lemma append_serial_ok (P : platform) (opt : option string) :
  exists acc,
    append_filter P "serial" opt (fun s => "^" ++ re_escape s ++ "$") []
    = Ok acc.
Proof.
  unfold append_filter. unfold_M. destruct opt as [s |]; [| eauto].
  rewrite re_compile_serial. eauto.
Qed.

(** X5.  [generate_filters] raises exactly when one of the patterns given
    for driver, model, model_db, vendor, vendor_db or iface_num is one
    that [re.compile] refuses; the value of [--serial], being escaped,
    never makes it raise. *)
Theorem generate_filters_succeeds_iff (P : platform) (a : args) :
  (exists fs, generate_filters P a = Ok fs)
  <-> compiles P (driver a) /\ compiles P (model a)
      /\ compiles P (model_db a) /\ compiles P (vendor a)
      /\ compiles P (vendor_db a) /\ compiles P (iface_num a).
Proof.
  unfold generate_filters. unfold mbind, result_bind.
  destruct (append_serial_ok P (serial a)) as [acc0 ->].
  rewrite <- (append_filter_ok_iff P "driver" (driver a) acc0).
  destruct (append_filter P "driver" (driver a) id acc0) as [acc1 | e];
    [| split; [intros [? ?]; discriminate | intros [[? ?] _]; discriminate]].
  rewrite <- (append_filter_ok_iff P "model" (model a) acc1).
  destruct (append_filter P "model" (model a) id acc1) as [acc2 | e];
    [| split; [intros [? ?]; discriminate
              | intros (_ & [? ?] & _); discriminate]].
  rewrite <- (append_filter_ok_iff P "model_db" (model_db a) acc2).
  destruct (append_filter P "model_db" (model_db a) id acc2) as [acc3 | e];
    [| split; [intros [? ?]; discriminate
              | intros (_ & _ & [? ?] & _); discriminate]].
  rewrite <- (append_filter_ok_iff P "vendor" (vendor a) acc3).
  destruct (append_filter P "vendor" (vendor a) id acc3) as [acc4 | e];
    [| split; [intros [? ?]; discriminate
              | intros (_ & _ & _ & [? ?] & _); discriminate]].
  rewrite <- (append_filter_ok_iff P "vendor_db" (vendor_db a) acc4).
  destruct (append_filter P "vendor_db" (vendor_db a) id acc4) as [acc5 | e];
    [| split; [intros [? ?]; discriminate
              | intros (_ & _ & _ & _ & [? ?] & _); discriminate]].
  rewrite <- (append_filter_ok_iff P "iface_num" (iface_num a) acc5).
  split; [intros H; repeat split; eauto | intros (_ & _ & _ & _ & _ & H)].
  exact H.
Qed.

Lemma match_literal_prefix (p s : string) (at_start : bool) :
  match_atoms (Lit <$> list_ascii_of_string p) at_start s = String.prefix p s.
Proof.
  revert s at_start. induction p as [| c p IH]; intros s at_start; simpl.
  - by destruct s.
  - destruct s as [| c' s]; [reflexivity |]. simpl.
    destruct (Ascii.ascii_dec c c') as [-> | Hne].
    + rewrite Ascii.eqb_refl. apply IH.
    + apply Ascii.eqb_neq in Hne. by rewrite Hne.
Qed.

Lemma re_compile_plain (P : platform) (p : string) :
  re_escape p = p ->
  re_compile P p = Ok (Atoms (Lit <$> list_ascii_of_string p)).
Proof.
  intros Hp. unfold re_compile.
  rewrite <- (string_app_nil_r p) at 1. rewrite <- Hp.
  rewrite (parse_atoms_escape p "" []) by reflexivity.
  by rewrite app_nil_r, Hp.
Qed.

(** X6.  A pattern without any character that [re.escape] would escape,
    given for [--driver] alone, is matched from the start of the field
    and not anchored at its end: the record passes exactly when its
    driver is a string that begins with the pattern. *)
Theorem plain_driver_filter_is_prefix (P : platform) (a : args)
    (p : string) (tty : dict) :
  re_escape p = p ->
  serial a = None -> driver a = Some p -> model a = None ->
  model_db a = None -> vendor a = None -> vendor_db a = None ->
  iface_num a = None ->
  exists fs,
    generate_filters P a = Ok fs
    /\ (filters_match fs tty = Ok true
        <-> exists x, tty !! "driver" = Some (VStr x)
                      /\ String.prefix p x = true).
Proof.
  intros Hp Hs Hd Hm Hmd Hv Hvd Hi.
  exists [("driver", Atoms (Lit <$> list_ascii_of_string p))]. split.
  - unfold generate_filters. rewrite Hs, Hd, Hm, Hmd, Hv, Hvd, Hi.
    unfold append_filter. unfold_M. unfold id.
    by rewrite (re_compile_plain P p Hp).
  - rewrite filters_match_true_iff. split.
    + intros H. inversion H as [| ? ? (x & Hx & Hmatch) _]; subst.
      exists x. split; [exact Hx |]. simpl in Hmatch.
      by rewrite match_literal_prefix in Hmatch.
    + intros (x & Hx & Hpre). constructor; [| constructor].
      exists x. split; [exact Hx |]. simpl.
      by rewrite match_literal_prefix.
Qed.

(** [--driver cdc] and the first board, whose driver is [cdc_acm]. *)
Lemma plain_driver_filter_is_prefix_witness :
  exists fs,
    generate_filters host0
      {| most_recent := false; format := ["table"]; format_sep := " ";
         serial := None; driver := Some "cdc"; model := None;
         model_db := None; vendor := None; vendor_db := None;
         iface_num := None; exclude_serial := None |}
    = Ok fs
    /\ filters_match fs tty_acm0 = Ok true.
Proof.
  destruct (plain_driver_filter_is_prefix host0
              {| most_recent := false; format := ["table"];
                 format_sep := " "; serial := None; driver := Some "cdc";
                 model := None; model_db := None; vendor := None;
                 vendor_db := None; iface_num := None;
                 exclude_serial := None |} "cdc" tty_acm0)
    as (fs & Hfs & Hiff); try reflexivity.
  exists fs. split; [exact Hfs |]. apply Hiff.
  exists "cdc_acm". split; reflexivity.
Defined.

Lemma filters_match_total (fs : list (string * regex)) (d : dict) :
  Forall (fun kr => exists v, d !! kr.1 = Some v /\ printable v) fs ->
  exists b, filters_match fs d = Ok b.
Proof.
  induction 1 as [| [key r] fs (v & Hv & Hp) _ IH]; simpl; [eauto |].
  unfold item. simpl in Hv. rewrite Hv.
  destruct Hp as [-> | [s ->]]; [eauto |].
  destruct (re_match r s); eauto.
Qed.

Lemma supplied_keys_fields (a : args) (k : string) :
  k ∈ supplied_keys a -> k ∈ filter_fields.
Proof.
  unfold supplied_keys, supplied, filter_fields.
  destruct (serial a), (driver a), (model a), (model_db a), (vendor a),
    (vendor_db a), (iface_num a); simpl; intros Hk;
    repeat (apply elem_of_cons in Hk as [-> | Hk];
            [repeat first [ apply list_elem_of_here
                          | apply list_elem_of_further ] |]);
    by apply elem_of_nil in Hk.
Qed.

(** X7.  On a record as [tty2dict] leaves it, the filters that
    [generate_filters] built never make [filters_match] raise: every
    filter is on a field that the record has, as a string or as null, so
    the answer is [True] or [False]. *)
Theorem generated_filters_never_raise (P : platform) (a : args)
    (fs : list (string * regex)) (d : dict) :
  generate_filters P a = Ok fs ->
  well_formed d ->
  exists b, filters_match fs d = Ok b.
Proof.
  intros Hfs (_ & _ & Hfields). apply filters_match_total.
  apply generate_filters_fields in Hfs.
  rewrite list.Forall_forall in Hfields.
  apply list.Forall_forall. intros [key r] Hin. simpl.
  apply Hfields, (supplied_keys_fields a). rewrite <- Hfs.
  apply (list_elem_of_fmap_2 fst) in Hin. exact Hin.
Qed.

(** [--serial XYZ] and the second board, whose serial is null: the answer
    is [False], not an exception. *)
Lemma generated_filters_never_raise_witness :
  exists b,
    filters_match [("serial", Atoms (serial_atoms "XYZ"))] tty_usb0 = Ok b.
Proof.
  apply (generated_filters_never_raise host0
           (with_serial "XYZ" default_args)).
  - reflexivity.
  - split; [eexists; reflexivity |]. split; [eexists; reflexivity |].
    repeat constructor; eexists;
      (split; [reflexivity |
               first [ by left | right; eexists; reflexivity ]]).
Defined.

(** ** More on extraction *)




(** X9.  What extraction stores.  When [tty2dict] returns, its result is
    a reference that was not in use; the record under it has exactly the
    nine keys path, ctime, serial, driver, model, model_db, vendor,
    vendor_db and iface_num, with a string path, a numeric ctime, and
    strings or nulls elsewhere; the records stored before are as they
    were and nothing has been printed. *)
Theorem tty2dict_stores_fresh_record (P : platform) (dev : device)
    (w w' : world) (r : ref) :
  tty2dict P dev w = (Ok r, w') ->
  heap w !! r = None
  /\ (exists d,
        heap w' !! r = Some d /\ well_formed d
        /\ dom d = list_to_set record_keys)
  /\ (forall r' d', heap w !! r' = Some d' -> heap w' !! r' = Some d')
  /\ out w' = out w /\ err w' = err w /\ queries w' = queries w.
Proof.
  unfold tty2dict, os_stat_ctime, unescape, py_int. unfold_M.
  destruct (dev !! "DEVNAME") as [p |]; [| discriminate].
  destruct (stat_ctime P p) as [t |]; [| discriminate].
  destruct (dev !! "ID_MODEL_ENC") as [m |]; [| discriminate].
  destruct (decode_escapes P m) as [m' |]; [| discriminate].
  destruct (dev !! "ID_VENDOR_ENC") as [v |]; [| discriminate].
  destruct (decode_escapes P v) as [v' |]; [| discriminate].
  destruct (dev !! "ID_USB_INTERFACE_NUM") as [i |]; [| discriminate].
  destruct (int_of_str P i) as [n |]; [| discriminate].
  unfold alloc. intros [= <- <-]. simpl.
  split; [by apply lookup_ge_None_2 |].
  split; [| split; [| by repeat split]].
  - eexists. split; [by rewrite lookup_app_r, Nat.sub_diag |].
    split.
    + split; [exists p; by simplify_map_eq |].
      split; [exists t; by simplify_map_eq |].
      repeat constructor; eexists;
        (split; [by simplify_map_eq |
                 first [apply printable_of_get | apply printable_str]]).
    + rewrite !dom_insert_L, dom_empty_L. unfold record_keys. simpl.
      apply set_eq. intros k.
      rewrite !elem_of_union, !elem_of_singleton, elem_of_empty. tauto.
  - intros r' d' Hr'. by apply lookup_app_l_Some.
Qed.

Lemma tty2dict_stores_fresh_record_witness :
  heap world0 !! 0%nat = None
  /\ (exists d,
        heap (tty2dict host0 dev_acm0 world0).2 !! 0%nat = Some d
        /\ well_formed d /\ dom d = list_to_set record_keys).
Proof.
  destruct (tty2dict_stores_fresh_record host0 dev_acm0 world0
              (tty2dict host0 dev_acm0 world0).2 0%nat)
    as (Hfresh & Hd & _); [reflexivity |].
  split; [exact Hfresh | exact Hd].
Defined.

(** ** Exclusion and filtering of the devices *)

Lemma collect_keeps_invariant (P : platform) (excluded : list string)
    (fs : list (string * regex)) (n0 : nat) (devs : list device) :
  forall ttys w ttys' w',
    collect_invariant excluded fs n0 (heap w) ttys ->
    (n0 <= length (heap w))%nat ->
    collect P (Some excluded) fs devs ttys w = (Ok ttys', w') ->
    collect_invariant excluded fs n0 (heap w') ttys'.
Proof.
  induction devs as [| dev devs IH]; intros ttys w ttys' w' Hinv Hn0 Hrun.
  - simpl in Hrun. injection Hrun as <- <-. exact Hinv.
  - cbn [collect] in Hrun. unfold mbind, M_bind at 1 in Hrun.
    destruct (tty2dict P dev w) as [[r | e] w1] eqn:Hdict; [| discriminate].
    apply tty2dict_extracted in Hdict as (-> & d & _ & ->).
    unfold mbind, M_bind at 1 in Hrun.
    assert (forall key, getitem (length (heap w)) key
              {| heap := heap w ++ [d]; out := out w; err := err w;
                 queries := queries w |}
            = (item d key,
               {| heap := heap w ++ [d]; out := out w; err := err w;
                  queries := queries w |})) as Hget.
    { intros key. unfold getitem, deref. unfold mbind, M_bind, lift. simpl.
      by rewrite lookup_app_r, Nat.sub_diag by lia. }
    rewrite Hget in Hrun. unfold item in Hrun.
    destruct (d !! "serial") as [s |] eqn:Hs; [| discriminate].
    unfold mbind, M_bind at 1 in Hrun. unfold lift at 1 in Hrun.
    unfold py_not_in in Hrun.
    destruct Hinv as (Hiff & Hbound & Hsorted).
    assert (length (heap w) ∉ ttys) as Hfresh.
    { intros Hin. apply Hbound in Hin. lia. }
    assert (forall b : bool,
              (b = true <-> passes excluded fs d) ->
              collect_invariant excluded fs n0 (heap w ++ [d])
                (if b then ttys ++ [length (heap w)] else ttys)) as Hstep.
    { intros b Hb. split; [| split].
      - intros r d' Hr Hge.
        destruct (decide (r = length (heap w))) as [-> | Hne].
        + rewrite lookup_app_r, Nat.sub_diag in Hr by lia.
          injection Hr as <-. rewrite <- Hb.
          destruct b; [| split; [done | discriminate]].
          split; [done |]. intros _. apply elem_of_app. right.
          apply list_elem_of_here.
        + assert (heap w !! r = Some d') as Hold.
          { apply lookup_lt_Some in Hr as Hlt. rewrite length_app in Hlt.
            simpl in Hlt. rewrite lookup_app_l in Hr by lia. exact Hr. }
          rewrite <- (Hiff r d' Hold Hge).
          destruct b; [| done]. rewrite elem_of_app, list_elem_of_singleton.
          split; [intros [H | H]; [exact H | done] | by left].
      - intros r Hr. rewrite length_app. simpl.
        destruct b.
        + apply elem_of_app in Hr as [Hr | Hr].
          * apply Hbound in Hr. lia.
          * apply list_elem_of_singleton in Hr as ->. lia.
        + apply Hbound in Hr. lia.
      - destruct b; [| exact Hsorted].
        apply StronglySorted_app_2; [| exact Hsorted | repeat constructor].
        intros x1 x2 H1 H2. apply list_elem_of_singleton in H2 as ->.
        apply Hbound in H1. lia. }
    assert (n0 <= length (heap w ++ [d]))%nat as Hn1.
    { rewrite length_app. lia. }
    destruct (py_in s excluded) eqn:Hex; simpl in Hrun.
    + refine (IH _ (World (heap w ++ [d]) (out w) (err w) (queries w))
                _ _ _ Hn1 Hrun).
      apply (Hstep false). split; [discriminate |].
      intros (v & Hv & Hin & _). congruence.
    + unfold_M. simpl in Hrun.
      rewrite lookup_app_r, Nat.sub_diag in Hrun by lia. simpl in Hrun.
      destruct (filters_match fs d) as [[|] | e] eqn:Hm; [| | discriminate].
      * refine (IH _ (World (heap w ++ [d]) (out w) (err w) (queries w))
                _ _ _ Hn1 Hrun).
        apply (Hstep true). split; [| done]. intros _. by exists s.
      * refine (IH _ (World (heap w ++ [d]) (out w) (err w) (queries w))
                _ _ _ Hn1 Hrun).
        apply (Hstep false). split; [discriminate |].
        intros (v & _ & _ & Hm'). congruence.
Qed.

(** X10.  The loop over the devices keeps exactly the records that are
    not excluded and that every filter matches: a record stored during
    the loop is referred to by the result if and only if its serial is
    not in the exclusion list (a null serial never is) and
    [filters_match] answers [True] on it.  The result refers to nothing
    else, and lists the records in the order of enumeration. *)
Theorem collect_keeps_exactly_passing (P : platform)
    (excluded : list string) (fs : list (string * regex))
    (devs : list device) (w w' : world) (ttys : list ref) :
  collect P (Some excluded) fs devs [] w = (Ok ttys, w') ->
  (forall r d, heap w' !! r = Some d -> (length (heap w) <= r)%nat ->
               (r ∈ ttys <-> passes excluded fs d))
  /\ (forall r, r ∈ ttys -> (length (heap w) <= r < length (heap w'))%nat)
  /\ StronglySorted lt ttys.
Proof.
  intros Hrun.
  apply (collect_keeps_invariant P excluded fs (length (heap w)) devs
           [] w ttys w'); [| lia | exact Hrun].
  split; [| split].
  - intros r d Hr Hge. apply lookup_lt_Some in Hr. lia.
  - intros r Hr. by apply elem_of_nil in Hr.
  - constructor.
Qed.

(** [--exclude-serial XYZ] on the two boards: the first, reference 0, is
    left out, the second, which has no serial, is kept. *)
Lemma collect_keeps_exactly_passing_witness :
  (forall r, r ∈ [1%nat] -> (0 <= r < 2)%nat)
  /\ StronglySorted lt [1%nat].
Proof.
  destruct (collect_keeps_exactly_passing host0 ["XYZ"] []
              [dev_acm0; dev_usb0] world0
              (collect host0 (Some ["XYZ"]) [] [dev_acm0; dev_usb0] []
                 world0).2 [1%nat]) as (_ & Hbound & Hsorted).
  - reflexivity.
  - split; [exact Hbound | exact Hsorted].
Defined.

(** ** More on the selection *)

Lemma py_gt_comparable (x y : value) (b : bool) :
  py_gt x y = Ok b -> comparable x.
Proof.
  destruct x as [| s | t], y as [| s' | t']; try discriminate; intros _.
  - right. by exists s.
  - left. by exists t.
Qed.

Lemma py_gt_irrefl (x : value) : comparable x -> py_gt x x = Ok false.
Proof.
  intros [[t ->] | [s ->]]; simpl; f_equal.
  - apply bool_decide_eq_false_2. intros Hlt. apply Qclt_alt in Hlt.
    by apply Qclt_not_eq in Hlt.
  - unfold String.ltb. pose proof (String.compare_antisym s s) as Ha.
    destruct (String.compare s s); simpl in Ha; try discriminate.
    reflexivity.
Qed.

Lemma scan_most_recent_reads (ttys : list ref) :
  forall best w r w',
    scan_most_recent ttys best w = (Ok r, w') ->
    Forall (fun tty => exists x, getitem tty "ctime" w = (Ok x, w)
                                 /\ comparable x) ttys.
Proof.
  induction ttys as [| tty ttys IH]; intros best w r w' Hrun; [constructor |].
  cbn [scan_most_recent] in Hrun. unfold mbind, M_bind at 1 in Hrun.
  destruct (getitem tty "ctime" w) as [[x | e] w1] eqn:Hx; [| discriminate].
  pose proof (getitem_same_world _ _ _ _ _ Hx) as ->.
  unfold mbind, M_bind at 1 in Hrun.
  destruct (getitem best "ctime" w) as [[y | e] w1] eqn:Hy; [| discriminate].
  apply getitem_same_world in Hy as ->.
  unfold mbind, M_bind, lift in Hrun.
  destruct (py_gt x y) as [newer | e] eqn:Hgt; [| discriminate].
  constructor; [| by eapply IH].
  exists x. split; [exact Hx | by eapply py_gt_comparable].
Qed.

(** X11.  Selection reads the store and leaves the world as it was; what
    it returns refers only to records it was given, to at most one of
    them when the flag is set; and selecting again from its result
    returns that result. *)
Theorem select_most_recent_idempotent (flag : bool) (ttys ttys' : list ref)
    (w w' : world) :
  select_most_recent flag ttys w = (Ok ttys', w') ->
  w' = w
  /\ (forall r, r ∈ ttys' -> r ∈ ttys)
  /\ (flag = true -> (length ttys' <= 1)%nat)
  /\ select_most_recent flag ttys' w = (Ok ttys', w).
Proof.
  intros Hrun. unfold select_most_recent in Hrun.
  destruct flag.
  - destruct ttys as [| first ttys].
    + injection Hrun as <- <-. repeat split; [done | simpl; lia].
    + unfold mbind, M_bind in Hrun.
      destruct (scan_most_recent (first :: ttys) first w)
        as [[r | e] w1] eqn:Hs; [| discriminate].
      pose proof (scan_most_recent_reads _ _ _ _ _ Hs) as Hreads.
      apply scan_most_recent_member in Hs as [-> Hr].
      injection Hrun as <- <-.
      assert (r ∈ first :: ttys) as Hin.
      { destruct Hr as [-> | Hr]; [apply list_elem_of_here | exact Hr]. }
      split; [reflexivity |]. split.
      { intros r' Hr'. by apply list_elem_of_singleton in Hr' as ->. }
      split; [simpl; lia |].
      rewrite list.Forall_forall in Hreads.
      destruct (Hreads r Hin) as (x & Hx & Hcmp).
      unfold select_most_recent. cbn [scan_most_recent].
      unfold mbind, M_bind. rewrite Hx. cbv beta iota. rewrite Hx.
      unfold lift. by rewrite (py_gt_irrefl x Hcmp).
  - injection Hrun as <- <-. repeat split; [done | discriminate].
Qed.

(** On the two boards: the second is selected, and selected again from
    the list that holds only it. *)
Lemma select_most_recent_idempotent_witness :
  select_most_recent true [1%nat] world_two = (Ok [1%nat], world_two).
Proof.
  destruct (select_most_recent_idempotent true [0; 1]%nat [1%nat]
              world_two world_two) as (_ & _ & _ & H);
    [reflexivity | exact H].
Defined.

(** ** More on the three output modes *)

Lemma keeps_heap_print_lines (P : platform) (a : args) (ttys : list ref) :
  keeps_heap (print_lines P a ttys).
Proof.
  induction ttys as [| tty ttys IH]; simpl; [auto with heap |].
  apply keeps_heap_bind; [apply keeps_heap_deref | intros d].
  apply keeps_heap_bind; [apply keeps_heap_lift | intros line].
  apply keeps_heap_bind; [apply keeps_heap_write | intros _; exact IH].
Qed.

(** X12.  Only the table mode writes to the records: in JSON mode and in
    the per-field mode the store after printing is the store before,
    whether printing succeeds or raises. *)
Theorem only_table_mode_writes_records (P : platform) (a : args)
    (ttys : list ref) (w : world) :
  format a <> ["table"] ->
  heap (print_results P a ttys w).2 = heap w.
Proof.
  intros Hfmt. unfold print_results.
  destruct (format a) as [| fmt [| g fmts]];
    try apply keeps_heap_print_lines.
  destruct (String.eqb_spec fmt "json") as [_ | _].
  - apply (keeps_heap_bind (deref_all ttys)
             (fun ds => print (json_dumps_list P ds))).
    + apply keeps_heap_deref_all.
    + intros ds. apply keeps_heap_write.
  - destruct (String.eqb_spec fmt "table") as [-> | _]; [done |].
    apply keeps_heap_print_lines.
Qed.

(** JSON on the two boards: the first record still has its number as
    [ctime]. *)
Lemma only_table_mode_writes_records_witness :
  heap (print_results host0 (with_format ["json"] " " default_args)
          [0; 1]%nat world_two).2
  = heap world_two.
Proof.
  apply only_table_mode_writes_records. discriminate.
Defined.

Lemma stamp_ctime_twice (P : platform) (ttys : list ref) :
  forall w,
    Forall (ctime_set (heap w)) ttys ->
    (exists r, r ∈ ttys /\ ctime_stamped (heap w) r) \/ ~ NoDup ttys ->
    exists w', stamp_ctime P ttys w = (Raise TypeError, w')
               /\ out w' = out w.
Proof.
  induction ttys as [| r ttys IH]; intros w Hall Hbad.
  - exfalso. destruct Hbad as [(r & Hr & _) | Hnd].
    + by apply elem_of_nil in Hr.
    + apply Hnd. constructor.
  - inversion Hall as [| ? ? (d & v & Hr & Hv & Hcmp) Hrest]; subst.
    cbn [stamp_ctime]. unfold_M. rewrite Hr. simpl. rewrite Hv.
    destruct Hcmp as [[t ->] | [s ->]]; [| by exists w].
    simpl. unfold setitem. rewrite Hr.
    match goal with
    | |- context [stamp_ctime P ttys ?w1] =>
        destruct (IH w1) as (w' & Hrun & Hout)
    end.
    + simpl. eapply list.Forall_impl; [exact Hrest |]. simpl.
      intros r' (d' & v' & Hr' & Hv' & Hcmp').
      destruct (decide (r' = r)) as [-> | Hne].
      * eexists _, _. split; [| split].
        -- apply list_lookup_insert_eq. by eapply lookup_lt_Some.
        -- by rewrite lookup_insert_eq.
        -- right. eauto.
      * exists d', v'. by rewrite list_lookup_insert_ne.
    + simpl. destruct Hbad as [(r' & Hin & d' & s' & Hr' & Hs') | Hnd].
      * left. exists r'.
        apply elem_of_cons in Hin as [-> | Hin]; [congruence |].
        split; [exact Hin |].
        destruct (decide (r' = r)) as [-> | Hne]; [congruence |].
        exists d', s'. by rewrite list_lookup_insert_ne.
      * destruct (decide (r ∈ ttys)) as [Hin | Hnotin].
        -- left. exists r. split; [exact Hin |]. eexists _, _. split.
           ++ apply list_lookup_insert_eq. by eapply lookup_lt_Some.
           ++ by rewrite lookup_insert_eq.
        -- right. intros Hnd'. apply Hnd. by constructor.
    + exists w'. split; [exact Hrun | exact Hout].
Qed.

(** X13.  The table mode stamps each record once: when the list refers
    twice to one record, the second visit finds a string where the
    timestamp was, [time.localtime] raises [TypeError], and no table is
    printed. *)
Theorem table_mode_raises_on_repeated_record (P : platform) (a : args)
    (ttys : list ref) (ts : list Qc) (w : world) :
  format a = ["table"] ->
  Forall2 (has_ctime (heap w)) ttys ts ->
  ~ NoDup ttys ->
  exists w', print_results P a ttys w = (Raise TypeError, w')
             /\ out w' = out w.
Proof.
  intros Hfmt Hall Hnd.
  destruct (stamp_ctime_twice P ttys w) as (w' & Hrun & Hout).
  - clear Hnd. induction Hall as [| r t ttys ts (d & Hr & Hd) _ IH];
      constructor; [| exact IH].
    exists d, (VNum t). split; [exact Hr |]. split; [exact Hd |].
    left. by exists t.
  - by right.
  - exists w'. split; [| exact Hout].
    unfold print_results. rewrite Hfmt. simpl. unfold mbind, M_bind.
    by rewrite Hrun.
Qed.

Lemma table_mode_raises_on_repeated_record_witness :
  exists w', print_results host0 default_args [0; 0]%nat world_two
             = (Raise TypeError, w')
             /\ out w' = out world_two.
Proof.
  apply (table_mode_raises_on_repeated_record host0 default_args
           [0; 0]%nat [Qc_of_Z 100; Qc_of_Z 100] world_two).
  - reflexivity.
  - repeat constructor; eexists; split; reflexivity.
  - intros Hnd. apply NoDup_cons_1_1 in Hnd. apply Hnd.
    apply list_elem_of_here.
Defined.

(** X14.  In the per-field mode, when every requested field of every
    record is a string, exactly one line per record is printed, in the
    order of the list: the texts of the requested fields, in the order
    requested, joined by the separator, each text being the field itself
    or, when the separator occurs in it, its [json.dumps]. *)
Theorem fields_mode_prints_joined_lines (P : platform) (a : args)
    (ttys : list ref) (ds : list dict) (w : world) :
  fields_mode (format a) ->
  resolves (heap w) ttys ds ->
  Forall (fields_are_strings (format a)) ds ->
  print_results P a ttys w = (Ok tt, printed (lines_of P a ds) w).
Proof.
  intros Hmode Hres Hall. rewrite (print_results_fields_mode P a ttys Hmode).
  by apply print_lines_strings.
Qed.

(** [--format path driver --format-sep :] on the two boards. *)
Lemma fields_mode_prints_joined_lines_witness :
  print_results host0 (with_format ["path"; "driver"] ":" default_args)
    [0; 1]%nat world_two
  = (Ok tt,
     printed ("/dev/ttyACM0:cdc_acm" ++ newline ++ "/dev/ttyUSB0:cp210x"
              ++ newline) world_two).
Proof.
  apply (fields_mode_prints_joined_lines host0
           (with_format ["path"; "driver"] ":" default_args) [0; 1]%nat
           [tty_acm0; tty_usb0] world_two).
  - split; discriminate.
  - repeat constructor.
  - repeat constructor; eexists; reflexivity.
Defined.

Lemma prefix_iff (sep s : string) :
  String.prefix sep s = true <-> exists post, s = sep ++ post.
Proof.
  revert s. induction sep as [| c sep IH]; intros s.
  - split; [intros _; by exists s | intros _; by destruct s].
  - destruct s as [| c' s]; simpl.
    + split; [discriminate |]. intros [post H].
      rewrite string_app_cons in H. discriminate.
    + destruct (Ascii.ascii_dec c c') as [-> | Hne].
      * rewrite IH. split; intros [post H]; exists post.
        -- by rewrite string_app_cons, H.
        -- rewrite string_app_cons in H. by injection H.
      * split; [discriminate |]. intros [post H].
        rewrite string_app_cons in H. injection H as -> _. done.
Qed.

Lemma rfind_from_iff (s sep : string) :
  forall i, (exists j, rfind_from i s sep = Some j) <-> occurs_in sep s.
Proof.
  unfold occurs_in. induction s as [| c s IH]; intros i; cbn [rfind_from].
  - destruct (String.prefix sep "") eqn:Hp.
    + split; [intros _ | eauto]. apply prefix_iff in Hp as [post Hp].
      exists "", post. exact Hp.
    + split; [intros [j H]; discriminate |]. intros (pre & post & H).
      exfalso. destruct pre; [| discriminate H].
      rewrite string_app_nil_l in H.
      assert (String.prefix sep "" = true) as Ht
        by (apply prefix_iff; by exists post).
      congruence.
  - destruct (rfind_from (S i) s sep) as [j |] eqn:Hj.
    + split; [intros _ | eauto].
      destruct (proj1 (IH (S i))) as (pre & post & ->); [eauto |].
      by exists (String c pre), post.
    + destruct (String.prefix sep (String c s)) eqn:Hp.
      * split; [intros _ | eauto]. apply prefix_iff in Hp as [post Hp].
        exists "", post. exact Hp.
      * split; [intros [j H]; discriminate |]. intros (pre & post & H).
        exfalso. destruct pre as [| c' pre].
        -- rewrite string_app_nil_l in H.
           assert (String.prefix sep (String c s) = true) as Ht
             by (apply prefix_iff; by exists post).
           congruence.
        -- rewrite string_app_cons in H. injection H as _ ->.
           destruct (proj2 (IH (S i))) as [j Hj']; [by exists pre, post |].
           congruence.
Qed.

Lemma rfind_found_iff (s sep : string) :
  (0 <=? rfind s sep) = true <-> occurs_in sep s.
Proof.
  rewrite <- (rfind_from_iff s sep 0). unfold rfind.
  destruct (rfind_from 0 s sep) as [j |].
  - split; [eauto | intros _; apply Z.leb_le; lia].
  - split; [discriminate | intros [j H]; discriminate].
Qed.

(** X15.  A field is wrapped by [json.dumps] exactly when the separator
    occurs somewhere in it, and is printed as it is otherwise; with the
    empty separator, which occurs in every string, every field is
    wrapped. *)
Theorem field_quoted_iff_separator_occurs (P : platform) (sep fmt : string)
    (d : dict) (s line : string) :
  d !! fmt = Some (VStr s) ->
  (occurs_in sep s ->
   build_line P sep [fmt] d line = Ok (line ++ sep ++ json_dumps_str P s))
  /\ (~ occurs_in sep s ->
      build_line P sep [fmt] d line = Ok (line ++ sep ++ s))
  /\ build_line P "" [fmt] d line = Ok (line ++ json_dumps_str P s).
Proof.
  intros Hs. simpl. unfold_M. rewrite Hs. split; [| split].
  - intros Hocc. apply rfind_found_iff in Hocc. by rewrite Hocc.
  - intros Hocc. destruct (0 <=? rfind s sep) eqn:Hr; [| reflexivity].
    exfalso. by apply Hocc, rfind_found_iff.
  - assert (occurs_in "" s) as Hocc by (by exists "", s).
    apply rfind_found_iff in Hocc. by rewrite Hocc.
Qed.

(** The vendor of the second board, [Silicon Labs], with the space as
    separator. *)
Lemma field_quoted_iff_separator_occurs_witness :
  build_line host0 " " ["vendor"] tty_usb0 ""
  = Ok (" " ++ dquote ++ "Silicon Labs" ++ dquote).
Proof.
  destruct (field_quoted_iff_separator_occurs host0 " " "vendor" tty_usb0
              "Silicon Labs" "") as (Hq & _ & _); [reflexivity |].
  apply Hq. by exists "Silicon", "Labs".
Defined.

(** ** More on the table *)

(** X16.  [print_table] measures a cell through [str] and stores its
    width through [len]: a cell that is not a string and whose text is
    longer than its header, such as a null under a header of fewer than
    four characters, makes it raise [TypeError] before anything is
    printed. *)
Theorem print_table_wide_non_string_raises (P : platform) (d : dict)
    (data : list dict) (h : string) (hs : list string) (v : value)
    (w : world) :
  d !! h = Some v ->
  (forall s, v <> VStr s) ->
  (String.length h < String.length (py_str P v))%nat ->
  print_table P (d :: data) (h :: hs) w = (Raise TypeError, w).
Proof.
  intros Hv Hns Hlt. unfold print_table. unfold_M.
  cbn [widen_all fmap list_fmap widen]. unfold_M. rewrite Hv.
  apply Nat.ltb_lt in Hlt. rewrite Hlt.
  destruct v as [| s | t]; [reflexivity | by destruct (Hns s) | reflexivity].
Qed.

(** A null under the header [id]. *)
Lemma print_table_wide_non_string_raises_witness :
  print_table host0 [{["id" := VNone]}] ["id"] world0
  = (Raise TypeError, world0).
Proof.
  apply (print_table_wide_non_string_raises host0 _ [] "id" [] VNone).
  - reflexivity.
  - discriminate.
  - simpl. lia.
Defined.

(** ** More on the run as a whole *)

(** X17.  When no record is left after exclusion, filtering and
    selection, the run ends with status 1 and has printed nothing, on
    standard output or on standard error. *)
Theorem empty_result_exits_1_silently (P : platform) (argv a : args)
    (fs : list (string * regex)) (ttys : list ref) (w1 w2 : world) :
  parse_args P argv = Ok a ->
  generate_filters P a = Ok fs ->
  collect P (exclude_serial a) fs (list_devices P) [] (queried world0)
  = (Ok ttys, w1) ->
  select_most_recent (most_recent a) ttys w1 = (Ok [], w2) ->
  main P argv = (1, w2) /\ out w2 = "" /\ err w2 = [].
Proof. apply no_match_is_silent. Qed.

(** [--serial NOPE] on the two boards: both are read, neither matches. *)
Lemma empty_result_exits_1_silently_witness :
  main host0 (with_serial "NOPE" default_args)
  = (1, queried world_two)
  /\ out (queried world_two) = "" /\ err (queried world_two) = [].
Proof.
  apply (empty_result_exits_1_silently host0
           (with_serial "NOPE" default_args)
           (with_exclude (Some []) (with_serial "NOPE" default_args))
           [("serial", Atoms (serial_atoms "NOPE"))] []
           (queried world_two) (queried world_two)); reflexivity.
Defined.

Lemma split_from_blank (v : string) :
  blank v -> split_from "" v = [].
Proof.
  unfold blank. induction v as [| c v IH]; simpl; [reflexivity |].
  intros H. inversion H as [| ? ? Hc Hv]; subst. rewrite Hc. simpl.
  by apply IH.
Qed.

(** X19.  [EXCLUDE_TTY_SERIAL] set to an empty or blank value excludes
    nothing: without [--exclude-serial], the exclusion list is then
    empty, as when the variable is not set. *)
Theorem blank_environment_excludes_nothing (P : platform) (a : args)
    (v : string) :
  check_formats (format a) = Ok tt ->
  exclude_serial a = None ->
  environ P !! "EXCLUDE_TTY_SERIAL" = Some v ->
  blank v ->
  parse_args P a = Ok (with_exclude (Some []) a).
Proof.
  intros Hfmt Hex Hv Hblank. unfold parse_args. unfold_M.
  rewrite Hfmt, Hex, Hv. unfold split. by rewrite split_from_blank.
Qed.

Lemma blank_environment_excludes_nothing_witness :
  parse_args (plain_host [] ∅ {["EXCLUDE_TTY_SERIAL" := "  "]})
    default_args
  = Ok (with_exclude (Some []) default_args).
Proof.
  apply (blank_environment_excludes_nothing _ default_args "  ");
    try reflexivity.
  repeat constructor.
Defined.

Lemma keeps_queries_bind {A B} (m : M A) (f : A -> M B) :
  keeps_queries m -> (forall a, keeps_queries (f a)) ->
  keeps_queries (m ≫= f).
Proof.
  intros Hm Hf w. unfold mbind, M_bind. specialize (Hm w).
  destruct (m w) as [[a | e] w1]; simpl in *; [| exact Hm].
  by rewrite Hf.
Qed.

Lemma keeps_queries_ret {A} (a : A) : keeps_queries (mret a).
Proof. intros w. reflexivity. Qed.

Lemma keeps_queries_lift {A} (r : result A) : keeps_queries (lift r).
Proof. intros w. reflexivity. Qed.

Lemma keeps_queries_raise {A} (e : exn) : keeps_queries (raise e : M A).
Proof. intros w. reflexivity. Qed.

Lemma keeps_queries_write (s : string) : keeps_queries (write s).
Proof. intros w. reflexivity. Qed.

Lemma keeps_queries_alloc (d : dict) : keeps_queries (alloc d).
Proof. intros w. reflexivity. Qed.

Lemma keeps_queries_deref (r : ref) : keeps_queries (deref r).
Proof. intros w. unfold deref. by destruct (heap w !! r). Qed.

Lemma keeps_queries_setitem (r : ref) (key : string) (v : value) :
  keeps_queries (setitem r key v).
Proof. intros w. unfold setitem. by destruct (heap w !! r). Qed.

Create HintDb queries.

#[local] Hint Resolve keeps_queries_ret keeps_queries_lift
  keeps_queries_raise keeps_queries_write keeps_queries_alloc
  keeps_queries_deref keeps_queries_setitem : queries.

Ltac keeps_queries_step :=
  first [ apply keeps_queries_bind; [| intros ?]
        | solve [auto with queries] ].

Lemma keeps_queries_getitem (r : ref) (key : string) :
  keeps_queries (getitem r key).
Proof. unfold getitem. repeat keeps_queries_step. Qed.

#[local] Hint Resolve keeps_queries_getitem : queries.

Lemma keeps_queries_tty2dict (P : platform) (dev : device) :
  keeps_queries (tty2dict P dev).
Proof. unfold tty2dict. repeat keeps_queries_step. Qed.

Lemma keeps_queries_collect (P : platform) (excluded : option (list string))
    (fs : list (string * regex)) (devs : list device) :
  forall ttys, keeps_queries (collect P excluded fs devs ttys).
Proof.
  induction devs as [| dev devs IH]; intros ttys; simpl;
    [auto with queries |].
  apply keeps_queries_bind; [apply keeps_queries_tty2dict | intros tty].
  apply keeps_queries_bind; [auto with queries | intros s].
  apply keeps_queries_bind; [auto with queries | intros [|]]; [| apply IH].
  apply keeps_queries_bind; [auto with queries | intros d].
  apply keeps_queries_bind; [auto with queries | intros [|]]; apply IH.
Qed.

Lemma keeps_queries_scan_most_recent (ttys : list ref) :
  forall best, keeps_queries (scan_most_recent ttys best).
Proof.
  induction ttys as [| tty ttys IH]; intros best; simpl;
    [auto with queries |].
  apply keeps_queries_bind; [auto with queries | intros x].
  apply keeps_queries_bind; [auto with queries | intros y].
  apply keeps_queries_bind; [auto with queries | intros newer]. apply IH.
Qed.

Lemma keeps_queries_select_most_recent (flag : bool) (ttys : list ref) :
  keeps_queries (select_most_recent flag ttys).
Proof.
  unfold select_most_recent. destruct flag; [| auto with queries].
  destruct ttys as [| first ttys]; [auto with queries |].
  apply keeps_queries_bind; [apply keeps_queries_scan_most_recent |].
  intros r. auto with queries.
Qed.

Lemma keeps_queries_deref_all (ttys : list ref) :
  keeps_queries (deref_all ttys).
Proof.
  induction ttys as [| r ttys IH]; simpl; [auto with queries |].
  apply keeps_queries_bind; [auto with queries | intros d].
  apply keeps_queries_bind; [exact IH | intros ds]. auto with queries.
Qed.

Lemma keeps_queries_stamp_ctime (P : platform) (ttys : list ref) :
  keeps_queries (stamp_ctime P ttys).
Proof.
  induction ttys as [| r ttys IH]; simpl; [auto with queries |].
  apply keeps_queries_bind; [auto with queries | intros v].
  apply keeps_queries_bind; [auto with queries | intros s].
  apply keeps_queries_bind; [auto with queries | intros _; exact IH].
Qed.

Lemma keeps_queries_row_cells (P : platform) (d : dict)
    (headers : list string) :
  forall lengths, keeps_queries (row_cells P d headers lengths).
Proof.
  induction headers as [| h hs IH]; intros [| n ns]; simpl;
    auto with queries.
  apply keeps_queries_bind; [auto with queries | intros v].
  apply keeps_queries_bind; [auto with queries | intros _; apply IH].
Qed.

Lemma keeps_queries_rows (P : platform) (data : list dict)
    (headers : list string) (lengths : list nat) :
  keeps_queries (rows P data headers lengths).
Proof.
  induction data as [| d data IH]; simpl; [auto with queries |].
  destruct headers as [| h0 hs]; [auto with queries |].
  destruct lengths as [| n0 ns]; [auto with queries |].
  apply keeps_queries_bind; [auto with queries | intros v].
  apply keeps_queries_bind; [auto with queries | intros _].
  apply keeps_queries_bind; [apply keeps_queries_row_cells | intros _].
  exact IH.
Qed.

Lemma keeps_queries_print_table (P : platform) (data : list dict)
    (headers : list string) :
  keeps_queries (print_table P data headers).
Proof.
  unfold print_table.
  apply keeps_queries_bind; [auto with queries | intros lengths].
  destruct headers as [| h0 hs]; [auto with queries |].
  destruct lengths as [| n0 ns]; [auto with queries |].
  do 4 (apply keeps_queries_bind; [auto with queries | intros _]).
  apply keeps_queries_bind; [apply keeps_queries_rows | intros _].
  auto with queries.
Qed.

Lemma keeps_queries_print_lines (P : platform) (a : args)
    (ttys : list ref) :
  keeps_queries (print_lines P a ttys).
Proof.
  induction ttys as [| tty ttys IH]; simpl; [auto with queries |].
  apply keeps_queries_bind; [auto with queries | intros d].
  apply keeps_queries_bind; [auto with queries | intros line].
  apply keeps_queries_bind; [apply keeps_queries_write | intros _; exact IH].
Qed.

Lemma keeps_queries_print_results (P : platform) (a : args)
    (ttys : list ref) :
  keeps_queries (print_results P a ttys).
Proof.
  unfold print_results.
  destruct (format a) as [| fmt [| g fmts]];
    try apply keeps_queries_print_lines.
  destruct (String.eqb fmt "json").
  - apply keeps_queries_bind; [apply keeps_queries_deref_all | intros ds].
    apply keeps_queries_write.
  - destruct (String.eqb fmt "table"); [| apply keeps_queries_print_lines].
    apply keeps_queries_bind; [apply keeps_queries_stamp_ctime | intros _].
    apply keeps_queries_bind; [apply keeps_queries_deref_all | intros ds].
    apply keeps_queries_print_table.
Qed.

Lemma main_queries (P : platform) (argv : args) :
  queries (main P argv).2 = queries (print_ttys P argv world0).2.
Proof.
  unfold main. destruct (print_ttys P argv world0) as [[[] | e] w];
    [reflexivity |].
  destruct e as [| | | | | | | | | [n | msg]]; reflexivity.
Qed.

(** X20.  The devices are enumerated once in a run whose arguments are
    accepted and whose patterns compile, whatever happens afterwards;
    when [parse_args] refuses the formats or a pattern does not compile,
    they are not enumerated at all. *)
Theorem devices_enumerated_at_most_once (P : platform) (argv : args) :
  (forall a fs,
      parse_args P argv = Ok a -> generate_filters P a = Ok fs ->
      queries (main P argv).2 = 1%nat)
  /\ (forall e,
        parse_args P argv = Raise e -> queries (main P argv).2 = 0%nat)
  /\ (forall a e,
        parse_args P argv = Ok a -> generate_filters P a = Raise e ->
        queries (main P argv).2 = 0%nat).
Proof.
  rewrite main_queries. unfold print_ttys. split; [| split].
  - intros a fs Ha Hfs. unfold mbind, M_bind at 1. unfold lift at 1.
    rewrite Ha. unfold mbind, M_bind at 1. unfold lift at 1. rewrite Hfs.
    unfold mbind, M_bind at 1. unfold query_devices at 1.
    match goal with
    | |- queries (?m ?w).2 = _ =>
        assert (keeps_queries m) as Hk; [| by rewrite (Hk w)]
    end.
    apply keeps_queries_bind; [apply keeps_queries_collect | intros ttys].
    apply keeps_queries_bind;
      [apply keeps_queries_select_most_recent | intros ttys'].
    destruct ttys'; [auto with queries | apply keeps_queries_print_results].
  - intros e Ha. unfold mbind, M_bind, lift. by rewrite Ha.
  - intros a e Ha Hfs. unfold mbind, M_bind at 1. unfold lift at 1.
    rewrite Ha. unfold mbind, M_bind, lift. by rewrite Hfs.
Qed.

(** [--most-recent] on the two boards: one enumeration. *)
Lemma devices_enumerated_at_most_once_witness :
  queries (main host0 (with_most_recent default_args)).2 = 1%nat.
Proof.
  destruct (devices_enumerated_at_most_once host0
              (with_most_recent default_args)) as (H & _ & _).
  apply (H (with_exclude (Some []) (with_most_recent default_args)) []);
    reflexivity.
Defined.

(** ** The layout of the table *)

Lemma widen_widened (P : platform) (d : dict) (headers : list string) :
  cells_ready headers d ->
  forall lengths,
    Forall (le 4) lengths ->
    widen P d headers lengths = Ok (widened P d headers lengths)
    /\ Forall (le 4) (widened P d headers lengths).
Proof.
  induction 1 as [| h hs (v & Hv & Hp) _ IH]; intros lengths Hlen.
  - by destruct lengths.
  - destruct lengths as [| n ns]; [done |].
    inversion Hlen as [| ? ? Hn Hns]; subst.
    destruct (IH ns Hns) as [Hrun Hfour].
    cbn [widen widened]. unfold cell. unfold_M. rewrite Hv, Hrun.
    destruct Hp as [-> | [s ->]]; simpl.
    + assert ((n <? 4)%nat = false) as -> by (apply Nat.ltb_ge; lia).
      rewrite Nat.max_l by lia. split; [reflexivity | by constructor].
    + destruct (n <? String.length s)%nat eqn:Hlt; simpl.
      * apply Nat.ltb_lt in Hlt. rewrite Nat.max_r by lia.
        split; [reflexivity | constructor; [lia | done]].
      * apply Nat.ltb_ge in Hlt. rewrite Nat.max_l by lia.
        split; [reflexivity | by constructor].
Qed.

Lemma widen_all_widened (P : platform) (data : list dict)
    (headers : list string) :
  Forall (cells_ready headers) data ->
  forall lengths,
    Forall (le 4) lengths ->
    widen_all P data headers lengths = Ok (widened_all P data headers lengths).
Proof.
  induction 1 as [| d data Hd _ IH]; intros lengths Hlen; [reflexivity |].
  destruct (widen_widened P d headers Hd lengths Hlen) as [Hrun Hfour].
  cbn [widen_all widened_all]. unfold_M. rewrite Hrun. by apply IH.
Qed.

Lemma widened_all_cons (P : platform) (data : list dict) (h : string)
    (hs : list string) :
  forall n ns,
    widened_all P data (h :: hs) (n :: ns)
    = max_list (n :: ((fun d => String.length (cell P d h)) <$> data))
      :: widened_all P data hs ns.
Proof.
  induction data as [| d data IH]; intros n ns; simpl.
  - by rewrite Nat.max_0_r.
  - rewrite IH. simpl. by rewrite Nat.max_assoc.
Qed.

Lemma widened_all_nil (P : platform) (data : list dict)
    (lengths : list nat) :
  widened_all P data [] lengths = lengths.
Proof.
  revert lengths. induction data as [| d data IH]; intros lengths; simpl;
    [reflexivity |].
  rewrite IH. by destruct lengths.
Qed.

Lemma widened_all_column_widths (P : platform) (data : list dict)
    (headers : list string) :
  widened_all P data headers (String.length <$> headers)
  = column_widths P data headers.
Proof.
  induction headers as [| h hs IH].
  - apply widened_all_nil.
  - cbn [fmap list_fmap]. rewrite widened_all_cons.
    unfold column_widths at 1. cbn [fmap list_fmap]. f_equal. exact IH.
Qed.

Lemma string_length_app (s1 s2 : string) :
  String.length (s1 ++ s2) = (String.length s1 + String.length s2)%nat.
Proof.
  induction s1 as [| c s1 IH]; [by rewrite string_app_nil_l |].
  rewrite string_app_cons. simpl. by rewrite IH.
Qed.

Lemma repeat_char_length (c : ascii) (n : nat) :
  String.length (repeat_char c n) = n.
Proof. induction n as [| n IH]; simpl; [reflexivity | by rewrite IH]. Qed.

Lemma pad_length (s : string) (n : nat) :
  (String.length s <= n)%nat -> String.length (pad s n) = n.
Proof.
  intros Hle. unfold pad.
  rewrite string_length_app, repeat_char_length. lia.
Qed.

Lemma header_cells_length (hs : list string) (ns : list nat) :
  Forall2 (fun h n => (String.length h <= n)%nat) hs ns ->
  String.length (header_cells hs ns) = (sum_list ns + 3 * length ns)%nat.
Proof.
  induction 1 as [| h n hs ns Hle _ IH]; [reflexivity |].
  cbn [header_cells]. rewrite !string_length_app, IH, (pad_length h n Hle).
  simpl. lia.
Qed.

Lemma rule_cells_length (ns : list nat) :
  String.length (rule_cells ns) = (sum_list ns + 3 * length ns)%nat.
Proof.
  induction ns as [| n ns IH]; [reflexivity |].
  cbn [rule_cells]. rewrite !string_length_app, IH, repeat_char_length.
  simpl. lia.
Qed.

Lemma cells_text_length (P : platform) (d : dict) (hs : list string)
    (ns : list nat) :
  Forall2 (fun h n => (String.length (cell P d h) <= n)%nat) hs ns ->
  String.length (cells_text P d hs ns) = (sum_list ns + 3 * length ns)%nat.
Proof.
  induction 1 as [| h n hs ns Hle _ IH]; [reflexivity |].
  cbn [cells_text]. rewrite !string_length_app, IH, (pad_length _ n Hle).
  simpl. lia.
Qed.

Lemma column_widths_fit_headers (P : platform) (data : list dict)
    (headers : list string) :
  Forall2 (fun h n => (String.length h <= n)%nat)
    headers (column_widths P data headers).
Proof.
  induction headers as [| h hs IH]; [constructor |].
  constructor; [| exact IH].
  unfold column_width. apply max_list_elem_of_le. left.
Qed.

Lemma column_widths_fit_cells (P : platform) (data : list dict) (d : dict)
    (headers : list string) :
  d ∈ data ->
  Forall2 (fun h n => (String.length (cell P d h) <= n)%nat)
    headers (column_widths P data headers).
Proof.
  intros Hd. induction headers as [| h hs IH]; [constructor |].
  constructor; [| exact IH].
  unfold column_width. apply max_list_elem_of_le. right.
  apply (list_elem_of_fmap_2 (fun d => String.length (cell P d h))).
  exact Hd.
Qed.

Lemma row_cells_text (P : platform) (d : dict) (headers : list string) :
  cells_ready headers d ->
  forall lengths w,
    row_cells P d headers lengths w
    = (Ok tt, printed (cells_text P d headers lengths) w).
Proof.
  induction 1 as [| h hs (v & Hv & _) _ IH]; intros lengths w.
  - destruct lengths; simpl; by rewrite printed_nil.
  - destruct lengths as [| n ns]; [simpl; by rewrite printed_nil |].
    cbn [row_cells cells_text]. unfold cell. unfold_M. rewrite Hv.
    unfold write.
    match goal with
    | |- context [row_cells P d hs ns ?w1] => rewrite (IH ns w1)
    end.
    f_equal. unfold printed. simpl. by rewrite !string_app_assoc.
Qed.

Lemma rows_rows_text (P : platform) (data : list dict) (h0 : string)
    (hs : list string) (n0 : nat) (ns : list nat) :
  Forall (cells_ready (h0 :: hs)) data ->
  forall w,
    rows P data (h0 :: hs) (n0 :: ns) w
    = (Ok tt, printed (rows_text P data (h0 :: hs) (n0 :: ns)) w).
Proof.
  induction 1 as [| d data Hd _ IH]; intros w;
    [simpl; by rewrite printed_nil |].
  inversion Hd as [| ? ? (v & Hv & _) Hrest]; subst.
  cbn [rows rows_text row_text]. unfold cell at 1. unfold_M. rewrite Hv.
  unfold write.
  match goal with
  | |- context [row_cells P d hs ns ?w1] =>
      rewrite (row_cells_text P d hs Hrest ns w1)
  end.
  rewrite IH. f_equal. unfold printed. simpl.
  by rewrite !string_app_assoc.
Qed.

Lemma join_rows_text (P : platform) (data : list dict)
    (headers : list string) (lengths : list nat) (line : string) :
  join newline (line :: (row_text P headers lengths <$> data))
  = line ++ rows_text P data headers lengths.
Proof.
  revert line. induction data as [| d data IH]; intros line.
  - simpl. by rewrite string_app_nil_r.
  - cbn [fmap list_fmap rows_text].
    change (join newline (line :: ?x :: ?l))
      with (line ++ newline ++ join newline (x :: l)).
    change (list_fmap _ _ ?f data) with (f <$> data).
    by rewrite IH.
Qed.

Lemma print_table_text (P : platform) (data : list dict)
    (headers : list string) (w : world) :
  headers <> [] ->
  Forall (fun h => (4 <= String.length h)%nat) headers ->
  Forall (cells_ready headers) data ->
  print_table P data headers w
  = (Ok tt, printed (table_text P data headers) w).
Proof.
  intros Hne Hfour Hdata. destruct headers as [| h0 hs]; [done |].
  unfold table_text. set (lengths := column_widths P data (h0 :: hs)).
  assert (lengths = column_width P data h0 :: column_widths P data hs)
    as Hshape by reflexivity.
  set (n0 := column_width P data h0) in Hshape.
  set (ns := column_widths P data hs) in Hshape.
  unfold print_table. unfold mbind, M_bind at 1. unfold lift.
  rewrite (widen_all_widened P data (h0 :: hs) Hdata).
  2:{ apply list.Forall_fmap. exact Hfour. }
  rewrite widened_all_column_widths. fold lengths. rewrite Hshape.
  cbv iota. unfold_M. unfold write.
  match goal with
  | |- context [rows P data (h0 :: hs) (n0 :: ns) ?w1] =>
      rewrite (rows_rows_text P data h0 hs n0 ns Hdata w1)
  end.
  f_equal. unfold table_lines.
  change (join newline (?a :: ?b :: ?l))
    with (a ++ newline ++ join newline (b :: l)).
  rewrite join_rows_text. unfold header_text, rule_text, printed.
  simpl out. f_equal. by rewrite !string_app_assoc.
Qed.

(** X21. [print_table] on records whose cells are strings or null, for
    headers of at least four characters: each column is as wide as the
    longest of its header and its cells, the output is the header line, the
    rule and one line per record, each ended by a newline, and all these
    lines have the same length. *)
Theorem print_table_is_aligned (P : platform) (data : list dict)
    (headers : list string) (w : world) :
  headers <> [] ->
  Forall (fun h => (4 <= String.length h)%nat) headers ->
  Forall (cells_ready headers) data ->
  let lengths := column_widths P data headers in
  let lines := table_lines P data headers lengths in
  print_table P data headers w
  = (Ok tt, printed (join newline lines ++ newline) w)
  /\ Forall (fun l => String.length l = line_width lengths) lines.
Proof.
  intros Hne Hfour Hdata lengths lines.
  destruct headers as [| h0 hs]; [done |].
  pose proof (column_widths_fit_headers P data (h0 :: hs)) as Hfit.
  fold lengths in Hfit.
  assert (forall d, d ∈ data ->
            Forall2 (fun h n => (String.length (cell P d h) <= n)%nat)
              (h0 :: hs) lengths) as Hcells.
  { intros d Hd. by apply column_widths_fit_cells. }
  assert (lengths = column_width P data h0 :: column_widths P data hs)
    as Hshape by reflexivity.
  set (n0 := column_width P data h0) in Hshape.
  set (ns := column_widths P data hs) in Hshape.
  split.
  - exact (print_table_text P data (h0 :: hs) w Hne Hfour Hdata).
  - unfold lines, table_lines. rewrite Hshape in *.
    inversion Hfit as [| ? ? ? ? Hh0 Hhs]; subst.
    assert (line_width (n0 :: ns) = (n0 + (sum_list ns + 3 * length ns))%nat)
      as Hwidth by (unfold line_width; simpl; lia).
    repeat apply Forall_cons_2.
    + unfold header_text.
      rewrite string_length_app, (pad_length h0 n0 Hh0),
        (header_cells_length hs ns Hhs). by rewrite Hwidth.
    + unfold rule_text.
      rewrite string_length_app, repeat_char_length, rule_cells_length.
      by rewrite Hwidth.
    + apply list.Forall_fmap, list.Forall_forall. intros d Hd. simpl.
      specialize (Hcells d Hd).
      inversion Hcells as [| ? ? ? ? Hc0 Hcs]; subst.
      rewrite string_length_app, (pad_length _ n0 Hc0),
        (cells_text_length P d hs ns Hcs). by rewrite Hwidth.
Qed.

(** Two columns, two records: the widths are 13 and 8, the four lines are
    24 characters long. *)
Lemma print_table_is_aligned_witness :
  print_table host0 two_rows ["path"; "serial"] world0
  = (Ok tt,
     printed
       (join newline
          (table_lines host0 two_rows ["path"; "serial"]
             (column_widths host0 two_rows ["path"; "serial"]))
        ++ newline) world0)
  /\ Forall
       (fun l =>
          String.length l
          = line_width (column_widths host0 two_rows ["path"; "serial"]))
       (table_lines host0 two_rows ["path"; "serial"]
          (column_widths host0 two_rows ["path"; "serial"])).
Proof.
  apply (print_table_is_aligned host0 two_rows ["path"; "serial"] world0).
  - discriminate.
  - constructor; [simpl; lia | constructor; [simpl; lia | constructor]].
  - constructor; [| constructor; [| constructor]].
    + constructor; [| constructor; [| constructor]].
      * exists (VStr "/dev/ttyACM0"). split; [reflexivity | by right; eexists].
      * exists VNone. split; [reflexivity | by left].
    + constructor; [| constructor; [| constructor]].
      * exists (VStr "/dev/ttyUSB10"). split; [reflexivity | by right; eexists].
      * exists (VStr "A1234567"). split; [reflexivity | by right; eexists].
Defined.

(** ** What a successful run prints *)

Lemma deref_all_resolves (ttys : list ref) (ds : list dict) (w : world) :
  resolves (heap w) ttys ds -> deref_all ttys w = (Ok ds, w).
Proof.
  induction 1 as [| r d ttys ds Hr _ IH]; [reflexivity |].
  cbn [deref_all]. unfold_M. by rewrite Hr, IH.
Qed.

Lemma collected_resolves (h : list dict) (ttys : list ref) :
  collected h ttys ->
  exists ds, resolves h ttys ds /\ Forall extracted ds.
Proof.
  intros [_ Hall]. induction Hall as [| r ttys (d & Hr & Hd) _ IH].
  - exists []. split; constructor.
  - destruct IH as (ds & Hres & Hds). exists (d :: ds).
    split; constructor; assumption.
Qed.

Lemma resolves_unique (h : list dict) (ttys : list ref) (ds ds' : list dict) :
  resolves h ttys ds -> resolves h ttys ds' -> ds = ds'.
Proof.
  intros Hres. revert ds'.
  induction Hres as [| r d ttys ds Hr _ IH]; intros ds' Hres'.
  - by inversion Hres'.
  - inversion Hres' as [| ? d' ? ds0 Hr' Hrest]; subst.
    rewrite Hr in Hr'. injection Hr' as <-. f_equal. by apply IH.
Qed.

(** The table mode leaves every listed record stamped. *)
Lemma stamp_ctime_stamped (P : platform) (ttys : list ref) (ds : list dict)
    (w : world) :
  collected (heap w) ttys ->
  resolves (heap w) ttys ds ->
  exists w',
    stamp_ctime P ttys w = (Ok tt, w')
    /\ out w' = out w /\ err w' = err w
    /\ resolves (heap w') ttys (stamped P <$> ds).
Proof.
  intros Hc Hres. destruct (collected_ctimes _ _ Hc) as [ts Hts].
  destruct Hc as [Hnd _].
  destruct (stamp_ctime_spec P ttys ts w Hnd Hts)
    as (w' & Hrun & Hout & Herr & Hin & _).
  exists w'. split; [exact Hrun | split; [exact Hout | split; [exact Herr |]]].
  unfold resolves. apply Forall2_fmap_r.
  apply Forall2_same_length_lookup_2.
  - eapply Forall2_length. exact Hres.
  - intros i r d Hi Hd.
    destruct (Forall2_lookup_l _ _ _ _ _ Hts Hi) as (t & Hti & d' & Hr' & Hct).
    pose proof (Forall2_lookup_lr _ _ _ _ _ _ Hres Hi Hd) as Hr.
    simpl in Hr. rewrite Hr in Hr'. injection Hr' as <-.
    unfold compose, stamped. rewrite (Hin i r t d Hi Hti Hr). by rewrite Hct.
Qed.

Lemma stamped_extracted_ready (P : platform) (ds : list dict) :
  Forall extracted ds ->
  Forall (cells_ready table_headers) (stamped P <$> ds).
Proof.
  intros Hds. apply list.Forall_fmap.
  eapply list.Forall_impl; [exact Hds |]. simpl.
  intros d Hd. pose proof Hd as [[t Ht] _]. unfold stamped. rewrite Ht.
  by apply stamped_cells_ready.
Qed.

(** The table mode prints the table of the stamped records. *)
Lemma print_results_table_text (P : platform) (a : args) (ttys : list ref)
    (ds : list dict) (w : world) :
  format a = ["table"] ->
  collected (heap w) ttys ->
  resolves (heap w) ttys ds ->
  exists w',
    print_results P a ttys w = (Ok tt, w')
    /\ err w' = err w
    /\ out w' = out w ++ table_text P (stamped P <$> ds) table_headers.
Proof.
  intros Hfmt Hc Hres.
  destruct (collected_resolves _ _ Hc) as (ds0 & Hres0 & Hds).
  rewrite <- (resolves_unique _ _ _ _ Hres Hres0) in Hds.
  destruct (stamp_ctime_stamped P ttys ds w Hc Hres)
    as (w1 & Hstamp & Hout & Herr & Hres1).
  eexists. split; [| split].
  - unfold print_results. rewrite Hfmt. simpl. unfold mbind, M_bind.
    rewrite Hstamp, (deref_all_resolves _ _ _ Hres1).
    apply print_table_text.
    + discriminate.
    + unfold table_headers. repeat constructor; simpl; lia.
    + by apply stamped_extracted_ready.
  - simpl. exact Herr.
  - simpl. by rewrite Hout.
Qed.

(** The JSON mode prints [json.dumps] of the records and a newline. *)
Lemma print_results_json_text (P : platform) (a : args) (ttys : list ref)
    (ds : list dict) (w : world) :
  format a = ["json"] ->
  resolves (heap w) ttys ds ->
  print_results P a ttys w
  = (Ok tt, printed (json_dumps_list P ds ++ newline) w).
Proof.
  intros Hfmt Hres. unfold print_results. rewrite Hfmt. simpl.
  unfold mbind, M_bind. by rewrite (deref_all_resolves _ _ _ Hres).
Qed.

Lemma line_not_empty (s : string) : s ++ newline <> "".
Proof.
  intros H. apply (f_equal String.length) in H.
  rewrite string_length_app in H. simpl in H. lia.
Qed.

(** X18.  In table mode and in JSON mode, whenever a record is left
    after exclusion, filtering and selection, the run ends with status 0
    and leaves standard error empty, records built by [tty2dict] never
    making these two modes raise; and it prints: standard output is, in
    table mode, the aligned table of the selected records with each
    timestamp replaced by its display and, in JSON mode, [json.dumps] of
    the selected records followed by a newline.  It is never empty. *)
Theorem nonempty_table_or_json_exits_0 (P : platform) (argv a : args)
    (fs : list (string * regex)) (ttys : list ref) (r : ref)
    (rest : list ref) (w1 w2 : world) :
  parse_args P argv = Ok a ->
  format a = ["table"] \/ format a = ["json"] ->
  generate_filters P a = Ok fs ->
  collect P (exclude_serial a) fs (list_devices P) [] (queried world0)
  = (Ok ttys, w1) ->
  select_most_recent (most_recent a) ttys w1 = (Ok (r :: rest), w2) ->
  exists w3 ds,
    main P argv = (0, w3) /\ err w3 = []
    /\ resolves (heap w2) (r :: rest) ds
    /\ (format a = ["table"] ->
        out w3 = table_text P (stamped P <$> ds) table_headers)
    /\ (format a = ["json"] -> out w3 = json_dumps_list P ds ++ newline)
    /\ out w3 <> "".
Proof.
  intros Hargs Hfmt Hfs Hcollect Hselect.
  assert (collected (heap w1) ttys) as Hc1.
  { eapply collect_collected; [| exact Hcollect]. split; constructor. }
  pose proof (keeps_out_collect P (exclude_serial a) fs (list_devices P) []
                (queried world0)) as [Ho1 He1].
  rewrite Hcollect in Ho1, He1. simpl in Ho1, He1.
  destruct (select_most_recent_collected _ _ _ _ _ Hc1 Hselect) as [-> Hc2].
  destruct (collected_resolves _ _ Hc2) as (ds & Hres & _).
  assert (forall w3, print_results P a (r :: rest) w1 = (Ok tt, w3) ->
                     main P argv = (0, w3)) as Hmain.
  { intros w3 Hprint. unfold main, print_ttys, query_devices. unfold_M.
    rewrite Hargs, Hfs. fold (queried world0).
    by rewrite Hcollect, Hselect, Hprint. }
  destruct Hfmt as [Hfmt | Hfmt].
  - destruct (print_results_table_text P a (r :: rest) ds w1 Hfmt Hc2 Hres)
      as (w3 & Hprint & He3 & Ho3).
    rewrite Ho1, string_app_nil_l in Ho3.
    exists w3, ds. split; [by apply Hmain |].
    split; [congruence |]. split; [exact Hres |].
    split; [intros _; exact Ho3 |].
    split; [intros Hj; congruence |].
    rewrite Ho3. apply line_not_empty.
  - pose proof (print_results_json_text P a (r :: rest) ds w1 Hfmt Hres)
      as Hprint.
    eexists. exists ds. split; [by apply Hmain |]. simpl.
    rewrite Ho1, string_app_nil_l.
    split; [exact He1 |]. split; [exact Hres |].
    split; [intros Ht; congruence |].
    split; [reflexivity |]. apply line_not_empty.
Qed.

(** The table of the two boards. *)
Lemma nonempty_table_or_json_exits_0_witness :
  exists w3 ds,
    main host0 default_args = (0, w3) /\ err w3 = []
    /\ resolves (heap (queried world_two)) [0; 1]%nat ds
    /\ (format (with_exclude (Some []) default_args) = ["table"] ->
        out w3 = table_text host0 (stamped host0 <$> ds) table_headers)
    /\ (format (with_exclude (Some []) default_args) = ["json"] ->
        out w3 = json_dumps_list host0 ds ++ newline)
    /\ out w3 <> "".
Proof.
  apply (nonempty_table_or_json_exits_0 host0 default_args
           (with_exclude (Some []) default_args) [] [0; 1]%nat 0%nat
           [1%nat] (queried world_two) (queried world_two));
    try reflexivity.
  by left.
Defined.
